(** * iss_xas_tools: grid alignment, curve normalisation and outlier scoring

    A shallow embedding of [xas/analysis.py] and [xas/outliers.py] and the
    properties of the scan-merging engine stated over it.

    Numbers.  The Python code works on float64 arrays.  A finite float is
    an exact rational ([Qc], canonical rationals, so that equal numbers are
    equal terms), and the IEEE special values that numpy produces on
    division by zero ([inf], [-inf], [nan]) are kept, because several
    properties are about exactly those.  Signed zeros are not modelled;
    every zero the code divides by is the result of an absolute value, a
    median of absolute values or a standard deviation, hence a positive
    zero.

    Rounding.  The operations of [Np] compute exactly.  They carry the
    properties that do not depend on the value a float operation rounds to:
    which exception a call raises, the shape of a result, where [nan] and
    [inf] appear, which values are copied unchanged.  The trimmed
    statistics are also embedded over an interface of rounded operations
    ([Rounded]), and what is said of the values they compute is proved from
    that interface, for every rounding. *)

From Stdlib Require Import List Bool Arith ZArith QArith Qcanon Qround Lia.
From Stdlib Require Import Permutation Sorted Orders Mergesort String.
Import ListNotations.

Set Implicit Arguments.

(* ================================================================= *)
(** ** Python-level outcomes *)

Module Py.

(** The exceptions the modelled functions can raise. *)
Inductive exn : Type :=
| TypeError
| ValueError
| KeyError
| IndexError
| ZeroDivisionError
| OverflowError
| LinAlgError.

(** A call either returns a value or raises. *)
Inductive result (A : Type) : Type :=
| Ok (a : A)
| Raise (e : exn).

Arguments Ok {A} a.
Arguments Raise {A} e.

Definition bind {A B : Type} (r : result A) (k : A -> result B) : result B :=
  match r with
  | Ok a => k a
  | Raise e => Raise e
  end.

Definition raises {A : Type} (r : result A) : bool :=
  match r with
  | Ok _ => false
  | Raise _ => true
  end.

(** [mapM f l]: a list comprehension or loop whose body can raise; the first
    exception aborts the loop. *)
Fixpoint mapM {A B : Type} (f : A -> result B) (l : list A) : result (list B) :=
  match l with
  | [] => Ok []
  | a :: l' =>
      bind (f a) (fun b => bind (mapM f l') (fun bs => Ok (b :: bs)))
  end.

(** Binding of the arguments of a call to the parameters of a [def]: the
    positional arguments fill the first parameters, every keyword must name a
    parameter not already filled, and every parameter without a default must
    end up filled.  Python raises [TypeError] otherwise, before the body
    runs. *)
Record signature : Type := Sig {
  params : list string;      (* parameter names, in order *)
  n_required : nat           (* the first [n_required] have no default *)
}.

Definition binds (s : signature) (n_positional : nat) (keywords : list string) : bool :=
  (n_positional <=? List.length (params s))
  && forallb (fun k => existsb (String.eqb k) (skipn n_positional (params s))) keywords
  && forallb (fun p => existsb (String.eqb p) keywords)
       (skipn n_positional (firstn (n_required s) (params s))).

(** A loop that updates local state and whose body can raise. *)
Fixpoint foldM {A S : Type} (f : A -> S -> result S) (l : list A) (s : S) : result S :=
  match l with
  | [] => Ok s
  | a :: l' => bind (f a s) (fun s' => foldM f l' s')
  end.

(** A [dict]; the keys are in insertion order. *)
Definition dict (V : Type) : Type := list (string * V).

(** [d[key]]; [KeyError] on a missing key. *)
Fixpoint dict_getitem {V : Type} (d : dict V) (key : string) : result V :=
  match d with
  | [] => Raise KeyError
  | (k, v) :: d' => if String.eqb k key then Ok v else dict_getitem d' key
  end.

(** [d[key] = value]: an existing key keeps its place and takes the new
    value, a new key goes last.  Assigning a column of a frame does the
    same. *)
Fixpoint dict_set {V : Type} (d : dict V) (key : string) (value : V) : dict V :=
  match d with
  | [] => [(key, value)]
  | (k, v) :: d' =>
      if String.eqb k key then (k, value) :: d' else (k, v) :: dict_set d' key value
  end.

End Py.

Export Py.

Notation "x <- r ;; k" := (Py.bind r (fun x => k))
  (at level 61, r at next level, right associativity).

(* ================================================================= *)
(** ** numpy values and array operations *)

Module Np.

Local Open Scope Qc_scope.

(** A float64 value. *)
Inductive npfloat : Type :=
| Fin (q : Qc)
| PInf
| NInf
| NaN.

Definition qc (n : Z) (d : positive) : Qc := Q2Qc (n # d).
Definition of_Z (n : Z) : npfloat := Fin (qc n 1).
Definition of_nat (n : nat) : npfloat := of_Z (Z.of_nat n).

Definition isnan (x : npfloat) : bool :=
  match x with NaN => true | _ => false end.

Definition isfinite (x : npfloat) : bool :=
  match x with Fin _ => true | _ => false end.

(** Sign of a rational, as a comparison with 0. *)
Definition sgn (q : Qc) : comparison := q ?= 0.

Definition fneg (x : npfloat) : npfloat :=
  match x with
  | Fin q => Fin (- q)
  | PInf => NInf
  | NInf => PInf
  | NaN => NaN
  end.

Definition fadd (x y : npfloat) : npfloat :=
  match x, y with
  | NaN, _ | _, NaN => NaN
  | Fin a, Fin b => Fin (a + b)
  | PInf, NInf | NInf, PInf => NaN
  | PInf, _ | _, PInf => PInf
  | NInf, _ | _, NInf => NInf
  end.

Definition fsub (x y : npfloat) : npfloat := fadd x (fneg y).

(** An infinity of the sign [c]; [inf * 0] is [nan]. *)
Definition inf_of_sign (c : comparison) : npfloat :=
  match c with
  | Gt => PInf
  | Lt => NInf
  | Eq => NaN
  end.

Definition fsign (x : npfloat) : comparison :=
  match x with
  | Fin q => sgn q
  | PInf => Gt
  | NInf => Lt
  | NaN => Eq
  end.

Definition sign_mul (c d : comparison) : comparison :=
  match c, d with
  | Eq, _ | _, Eq => Eq
  | Gt, Gt | Lt, Lt => Gt
  | _, _ => Lt
  end.

Definition fmul (x y : npfloat) : npfloat :=
  match x, y with
  | NaN, _ | _, NaN => NaN
  | Fin a, Fin b => Fin (a * b)
  | _, _ => inf_of_sign (sign_mul (fsign x) (fsign y))
  end.

(** Division; a finite value over zero is an infinity of its sign and
    [0 / 0] is [nan] (numpy warns and goes on). *)
Definition fdiv (x y : npfloat) : npfloat :=
  match x, y with
  | NaN, _ | _, NaN => NaN
  | Fin a, Fin b =>
      match sgn b with
      | Eq => inf_of_sign (sgn a)
      | _ => Fin (a / b)
      end
  | Fin _, _ => Fin 0
  | _, Fin b =>
      match sgn b with
      | Lt => fneg x
      | _ => x
      end
  | _, _ => NaN
  end.

Definition fabs (x : npfloat) : npfloat :=
  match x with
  | Fin q => Fin (match sgn q with Lt => - q | _ => q end)
  | PInf | NInf => PInf
  | NaN => NaN
  end.

(** [x ** 2]. *)
Definition fsq (x : npfloat) : npfloat := fmul x x.

(** [x < y]; every comparison with [nan] is false. *)
Definition fltb (x y : npfloat) : bool :=
  match x, y with
  | NaN, _ | _, NaN => false
  | Fin a, Fin b => match a ?= b with Lt => true | _ => false end
  | NInf, NInf | PInf, _ | _, NInf => false
  | _, _ => true
  end.

Definition fgtb (x y : npfloat) : bool := fltb y x.

(** [x == y] of floats; [nan == nan] is false. *)
Definition feqb (x y : npfloat) : bool :=
  match x, y with
  | Fin a, Fin b => Qc_eq_bool a b
  | PInf, PInf | NInf, NInf => true
  | _, _ => false
  end.

(** Identity of values, [nan] included (for comparing results). *)
Definition same (x y : npfloat) : bool :=
  match x, y with
  | NaN, NaN => true
  | _, _ => feqb x y
  end.

(** The order [np.sort] and [np.partition] use: ascending, [nan] last. *)
Definition sort_leb (x y : npfloat) : bool :=
  match x, y with
  | _, NaN => true
  | NaN, _ => false
  | _, _ => negb (fltb y x)
  end.

(** [x >= y]. *)
Definition fgeb (x y : npfloat) : bool := fltb y x || feqb x y.

(** *** One-dimensional arrays *)

Definition array := list npfloat.

Fixpoint insert_sorted (x : npfloat) (l : array) : array :=
  match l with
  | [] => [x]
  | y :: l' => if sort_leb x y then x :: l else y :: insert_sorted x l'
  end.

(** [np.sort]; also the order statistics [np.partition] puts in place. *)
Definition np_sort (l : array) : array := fold_right insert_sorted [] l.

(** [np.sum] of a one-dimensional array. *)
Definition np_sum (l : array) : npfloat := fold_right fadd (Fin 0) l.

(** [np.mean]: the sum over the count; [nan] on an empty array. *)
Definition np_mean (l : array) : npfloat := fdiv (np_sum l) (of_nat (List.length l)).

(** The variance [np.var], mean of the squared deviations from the mean. *)
Definition np_var (l : array) : npfloat :=
  let m := np_mean l in np_mean (map (fun x => fsq (fabs (fsub x m))) l).

(** [np.std] is the square root of [np.var].  The rationals are not closed
    under square roots, so a standard deviation is kept as the root of its
    radicand; the code only ever divides by it and squares the quotient. *)
Record stddev : Type := Sqrt { radicand : npfloat }.

Definition np_std (l : array) : stddev := Sqrt (np_var l).

(** [(d / s) ** 2] for a standard deviation [s]: [d ** 2] over the variance.
    With [s = 0] this is [inf] for [d <> 0] and [nan] for [d = 0], as the
    quotient by a zero float and its square are. *)
Definition sq_quot (d : npfloat) (s : stddev) : npfloat := fdiv (fsq d) (radicand s).

(** [np.median]: [nan] when the array is empty or holds a [nan], else the
    middle order statistic, or the mean of the two middle ones. *)
Definition np_median (l : array) : npfloat :=
  if existsb isnan l then NaN
  else
    let n := List.length l in
    let s := np_sort l in
    match n with
    | O => NaN
    | _ =>
        if Nat.odd n then nth (n / 2) s NaN
        else fdiv (fadd (nth (n / 2 - 1) s NaN) (nth (n / 2) s NaN)) (of_nat 2)
    end.

(** *** Two-dimensional arrays *)

(** A matrix with [shape = (length rows, shape1)]; the column count is kept
    apart because a matrix without rows still has one. *)
Record ndarray2 : Type := Array2 {
  shape1 : nat;
  rows : list array
}.

Definition shape0 (a : ndarray2) : nat := List.length (rows a).

(** Every row has [shape1] entries. *)
Definition wf (a : ndarray2) : Prop :=
  Forall (fun r => List.length r = shape1 a) (rows a).

Definition size (a : ndarray2) : nat := shape0 a * shape1 a.

(** [a[:, j]]. *)
Definition column (j : nat) (a : ndarray2) : array :=
  map (fun r => nth j r NaN) (rows a).

Definition columns (a : ndarray2) : list array :=
  map (fun j => column j a) (seq 0 (shape1 a)).

(** The matrix whose columns are [cols], each of length [n]. *)
Definition of_columns (n : nat) (cols : list array) : ndarray2 :=
  Array2 (List.length cols)
         (map (fun i => map (fun c => nth i c NaN) cols) (seq 0 n)).

(** [a.ravel()]. *)
Definition ravel (a : ndarray2) : array := List.concat (rows a).

(** A reduction along [axis=0]: one value per column. *)
Definition reduce_axis0 {A : Type} (f : array -> A) (a : ndarray2) : list A :=
  map f (columns a).

(** A reduction along [axis=1]: one value per row. *)
Definition reduce_axis1 {A : Type} (f : array -> A) (a : ndarray2) : list A :=
  map f (rows a).

(** Broadcasting of a row vector against every row of a matrix. *)
Fixpoint zip_with {A B C : Type} (f : A -> B -> C) (l : list A) (l' : list B) : list C :=
  match l, l' with
  | a :: t, b :: t' => f a b :: zip_with f t t'
  | _, _ => []
  end.

Definition broadcast_rows {B : Type} (f : npfloat -> B -> npfloat)
  (a : ndarray2) (v : list B) : ndarray2 :=
  Array2 (shape1 a) (map (fun r => zip_with f r v) (rows a)).

Definition map_array2 (f : npfloat -> npfloat) (a : ndarray2) : ndarray2 :=
  Array2 (shape1 a) (map (map f) (rows a)).

(** [a[mask]] for a boolean mask over the first axis; numpy raises
    [IndexError] when the mask has another length than the axis. *)
Fixpoint select {A : Type} (l : list A) (mask : list bool) : list A :=
  match l, mask with
  | a :: l', b :: mask' => if b then a :: select l' mask' else select l' mask'
  | _, _ => []
  end.

Definition getitem_mask {A : Type} (l : list A) (mask : list bool) : result (list A) :=
  if List.length mask =? List.length l then Ok (select l mask) else Raise IndexError.

(** *** [np.interp] *)

(** The index search of [np.interp]: the last [j] with [xp[j] <= key], for
    a key within [xp[0], xp[-1]].  numpy scans linearly up to four sample
    points and bisects above; on increasing sample points, the only ones
    [np.interp] is specified for, both give this index. *)
Fixpoint search_from (key : npfloat) (arr : array) (i : nat) : nat :=
  match arr with
  | [] => i
  | a :: arr' => if fgeb key a then search_from key arr' (S i) else i
  end.

Definition linear_search (key : npfloat) (xp : array) : nat :=
  search_from key (tl xp) 1 - 1.

(** One interpolated value; [left] and [right] default to [fp[0]] and
    [fp[-1]]. *)
Definition interp_at (xp fp : array) (x : npfloat) : npfloat :=
  let lenxp := List.length xp in
  let lval := hd NaN fp in
  let rval := last fp NaN in
  if lenxp =? 1 then
    if fltb x (hd NaN xp) then lval else if fgtb x (hd NaN xp) then rval else hd NaN fp
  else if isnan x then x
  else if fgtb x (last xp NaN) then rval
  else if fltb x (hd NaN xp) then lval
  else
    let j := linear_search x xp in
    if j =? lenxp - 1 then nth j fp NaN
    else if feqb (nth j xp NaN) x then nth j fp NaN
    else
      let slope := fdiv (fsub (nth (S j) fp NaN) (nth j fp NaN))
                        (fsub (nth (S j) xp NaN) (nth j xp NaN)) in
      let r := fadd (fmul slope (fsub x (nth j xp NaN))) (nth j fp NaN) in
      if isnan r then
        let r' := fadd (fmul slope (fsub x (nth (S j) xp NaN))) (nth (S j) fp NaN) in
        if isnan r' && feqb (nth j fp NaN) (nth (S j) fp NaN) then nth j fp NaN else r'
      else r.

(** [np.interp(x, xp, fp)]: [ValueError] on an empty [xp] and on [fp] of
    another length than [xp]. *)
Definition np_interp (x xp fp : array) : result array :=
  if List.length xp =? 0 then Raise ValueError
  else if negb (List.length fp =? List.length xp) then Raise ValueError
  else Ok (map (interp_at xp fp) x).

(** *** [np.linalg.lstsq] on the basis [(1, x)] *)

Definition finite_values (l : array) : option (list Qc) :=
  fold_right (fun x acc =>
                match x, acc with
                | Fin q, Some qs => Some (q :: qs)
                | _, _ => None
                end) (Some []) l.

Definition qsum (l : list Qc) : Qc := fold_right Qcplus 0 l.

Definition qlen (l : list Qc) : Qc := qc (Z.of_nat (List.length l)) 1.

(** The least-squares coefficients [(c0, c1)] of [c0 + c1 * x] against [y],
    [x] and [y] of one length.  With the Gram matrix [[n, Sx], [Sx, Sxx]]
    regular this is the solution of the normal equations; when it is
    singular ([x] constant) [lstsq] returns the solution of least norm, and
    zeros when there are no points at all.  [lstsq] also treats as singular
    a system whose singular values differ by more than its [rcond]; this
    cut-off is not modelled, so the values are those of a well-conditioned
    or an exactly singular system, and nothing below is stated about the
    values of any other fit. *)
Definition lstsq_coeffs (x y : list Qc) : Qc * Qc :=
  let n := qlen x in
  let Sx := qsum x in
  let Sy := qsum y in
  let Sxx := qsum (map (fun a => a * a) x) in
  let Sxy := qsum (zip_with Qcmult x y) in
  let det := n * Sxx - Sx * Sx in
  if Qc_eq_bool det 0 then
    match x with
    | [] => (0, 0)
    | x0 :: _ =>
        let ybar := Sy / n in
        (ybar / (1 + x0 * x0), ybar * x0 / (1 + x0 * x0))
    end
  else ((Sy * Sxx - Sx * Sxy) / det, (n * Sxy - Sx * Sy) / det).

(** [np.linalg.lstsq(np.vstack((np.ones(n), x)).T, y)[0]].  The singular
    value decomposition is that of the basis: on a non-finite basis the
    LAPACK driver does not converge and numpy raises [LinAlgError]; a
    non-finite right-hand side raises nothing and makes both coefficients
    [nan]. *)
Definition lstsq_affine (x y : array) : result (npfloat * npfloat) :=
  if negb (List.length x =? List.length y) then Raise LinAlgError
  else
    match finite_values x with
    | None => Raise LinAlgError
    | Some qx =>
        match finite_values y with
        | None => Ok (NaN, NaN)
        | Some qy =>
            let c := lstsq_coeffs qx qy in Ok (Fin (fst c), Fin (snd c))
        end
    end.

End Np.

(* ================================================================= *)
(** ** scipy.stats *)

Module Stats.

Import Np.
Local Open Scope Z_scope.

(** [int(q)]: truncation towards zero. *)
Definition int_of (q : Qc) : Z := Z.quot (Qnum q) (Zpos (Qden q)).

(** The slice [lowercut : uppercut] that [trimboth] keeps of [nobs] sorted
    observations.  [ValueError] when the proportion is too big, and from
    [np.partition] when a negative proportion puts [uppercut - 1] out of
    bounds.  The product is the exact one; the code truncates the rounded
    product, which [Rounded.trimboth] below follows. *)
Definition trim_cuts (nobs : nat) (proportiontocut : Qc) : result (nat * nat) :=
  let lowercut := int_of (proportiontocut * qc (Z.of_nat nobs) 1)%Qc in
  let uppercut := Z.of_nat nobs - lowercut in
  if lowercut >=? uppercut then Raise ValueError
  else if lowercut <? 0 then Raise ValueError
  else Ok (Z.to_nat lowercut, Z.to_nat uppercut).

(** [l[lo:hi]]. *)
Definition slice {A : Type} (lo hi : nat) (l : list A) : list A :=
  firstn (hi - lo) (skipn lo l).

(** [scipy.stats.trimboth(a, proportiontocut, axis=0)]: every column is
    partitioned around the two cut positions and the slice between them is
    kept.  The order inside the slice is unspecified; the sorted order is
    taken here, and nothing stated over this definition depends on it
    ([Rounded.trimboth] below leaves the order open). *)
Definition trimboth (a : ndarray2) (proportiontocut : Qc) : result ndarray2 :=
  if (size a =? 0)%nat then Ok a
  else
    cuts <- trim_cuts (shape0 a) proportiontocut ;;
    let '(lowercut, uppercut) := cuts in
    Ok (of_columns (uppercut - lowercut)
          (map (fun c => slice lowercut uppercut (np_sort c)) (columns a))).

End Stats.

(* ================================================================= *)
(** ** xas/analysis.py *)

Module Analysis.

Import Np.

(** A [pd.DataFrame]: named columns, in order. *)
Definition DataFrame := list (string * array).

Definition df_columns (df : DataFrame) : list string := map fst df.

(** [df[key]]; [KeyError] on a missing column. *)
Fixpoint getitem (df : DataFrame) (key : string) : result array :=
  match df with
  | [] => Raise KeyError
  | (k, v) :: df' => if String.eqb k key then Ok v else getitem df' key
  end.

(** A frame as pandas builds it from a dict: distinct column names, columns
    of one length. *)
Definition wf_frame (df : DataFrame) : Prop :=
  NoDup (df_columns df) /\
  forall k v k' v', In (k, v) df -> In (k', v') df -> List.length v = List.length v'.

(** [check_for_outliers(all_data, trim_fraction=0.2, threshold=25)]. *)
Definition check_for_outliers (all_data : ndarray2) (trim_fraction threshold : Qc)
  : result (array * list bool) :=
  let n_pts := shape1 all_data in
  trim_data <- Stats.trimboth all_data trim_fraction ;;
  let trim_mean := reduce_axis0 np_mean trim_data in
  let trim_std := reduce_axis0 np_std trim_data in
  let deviation_from_mean :=
    map (fun s => fdiv s (of_nat n_pts))
        (reduce_axis1 np_sum
           (broadcast_rows sq_quot (broadcast_rows fsub all_data trim_mean) trim_std)) in
  Ok (deviation_from_mean, map (fun d => fgtb d (Fin threshold)) deviation_from_mean).

Definition default_trim_fraction : Qc := qc 2 10.
Definition default_check_threshold : Qc := qc 25 1.

(** One iteration of the loop of [standardize_energy_grid]: the scan [df]
    resampled on [energy_master]. *)
Definition resample (energy_key : string) (energy_master : array) (df : DataFrame)
  : result DataFrame :=
  cols <- mapM (fun column =>
                  xp <- getitem df energy_key ;;
                  fp <- getitem df column ;;
                  v <- np_interp energy_master xp fp ;;
                  Ok (column, v))
               (filter (fun column => negb (String.eqb column energy_key)) (df_columns df)) ;;
  Ok ((energy_key, energy_master) :: cols).

(** [standardize_energy_grid(dfs, energy_key="energy")]: the first scan is
    the master and is passed through. *)
Definition standardize_energy_grid (dfs : list DataFrame) (energy_key : string)
  : result (list DataFrame) :=
  match dfs with
  | [] => Raise IndexError
  | df0 :: rest =>
      energy_master <- getitem df0 energy_key ;;
      dfs_out <- mapM (resample energy_key energy_master) rest ;;
      Ok (df0 :: dfs_out)
  end.

Definition standardize_energy_grid_sig : signature :=
  Sig ["dfs"; "energy_key"]%string 1.

(** The row [basis @ c] for the basis [(1, x)]. *)
Definition affine (c : npfloat * npfloat) (x : array) : array :=
  map (fun v => fadd (fmul (fst c) (of_nat 1)) (fmul (snd c) v)) x.

(** [prenormalize_data(data)]: row 0 is copied, every other row is replaced
    by its least-squares affine image against row 0. *)
Definition prenormalize_data (data : ndarray2) : result ndarray2 :=
  let n_pts := shape1 data in
  match rows data with
  | [] => Raise IndexError
  | row0 :: others =>
      fitted <- mapM (fun row_i =>
                        c <- lstsq_affine row_i row0 ;;
                        Ok (affine c row_i)) others ;;
      Ok (Array2 n_pts (row0 :: fitted))
  end.

Definition prenormalize_data_sig : signature := Sig ["data"]%string 1.

(** *** The checks on the detector currents *)

(** The metadata of a scan, as far as [degain] reads it: the amplifier
    gains, whole powers of ten. *)
Definition Metadata := dict Z.

(** [10 ** g] for an integer [g]. *)
Definition pow10 (g : Z) : Qc :=
  match g with
  | Z0 => 1%Qc
  | Zpos p => Qcpower (qc 10 1) (Pos.to_nat p)
  | Zneg p => (/ Qcpower (qc 10 1) (Pos.to_nat p))%Qc
  end.

Definition default_df_keys : list string := ["i0"; "it"; "ir"; "iff"]%string.
Definition default_md_keys : list string :=
  ["ch1_amp_gain"; "ch2_amp_gain"; "ch3_amp_gain"; "ch4_amp_gain"]%string.

(** [degain(df, md, df_keys, md_keys)]: every current is read from [df] and
    written, in mV, into the copy. *)
Definition degain (df : DataFrame) (md : Metadata) (df_keys md_keys : list string)
  : result DataFrame :=
  foldM (fun kk df_mV =>
           v <- getitem df (fst kk) ;;
           g <- dict_getitem md (snd kk) ;;
           Ok (dict_set df_mV (fst kk)
                 (map (fun x => fmul (fmul x (Fin (pow10 g))) (of_Z 1000)) v)))
        (combine df_keys md_keys) df.

Definition default_saturation_threshold : Qc := qc 3200 1.
Definition default_amplitude_threshold : Qc := qc 20 1.

(** [check_saturation(df, keys, threshold=3200)]: [False] marks a saturated
    current. *)
Definition check_saturation (df : DataFrame) (keys : list string) (threshold : Qc)
  : result (dict bool) :=
  foldM (fun k sat_dict =>
           v <- getitem df k ;;
           if existsb (fun x => fgtb (fabs x) (Fin threshold)) v
           then Ok (dict_set sat_dict k false)
           else Ok (dict_set sat_dict k true))
        keys [].

(** [check_amplitude(df, keys, threshold=20)]: [False] marks a current that
    stays below the threshold everywhere. *)
Definition check_amplitude (df : DataFrame) (keys : list string) (threshold : Qc)
  : result (dict bool) :=
  foldM (fun k low_amp_dict =>
           v <- getitem df k ;;
           if forallb (fun x => fltb (fabs x) (Fin threshold)) v
           then Ok (dict_set low_amp_dict k false)
           else Ok (dict_set low_amp_dict k true))
        keys [].

(** [np.isfinite(-np.log(x))].  The logarithm of a float is finite exactly
    on the finite positive numbers: it is [-inf] at zero, [nan] below zero
    and on [nan], and [inf] at [inf]. *)
Definition isfinite_neg_log (x : npfloat) : bool :=
  match x with
  | Fin q => match sgn q with Gt => true | _ => false end
  | _ => false
  end.

(** The three flags that [check_mu_values] and [check_scan] return under
    the keys ["mut"], ["mur"] and ["muf"]. *)
Record mu_flags : Type := MuFlags {
  mut : bool;
  mur : bool;
  muf : bool
}.

(** [check_mu_values(df)]. *)
Definition check_mu_values (df : DataFrame) : result mu_flags :=
  it <- getitem df "it"%string ;;
  i0 <- getitem df "i0"%string ;;
  ir <- getitem df "ir"%string ;;
  iff <- getitem df "iff"%string ;;
  Ok (MuFlags (forallb isfinite_neg_log (zip_with fdiv it i0))
              (forallb isfinite_neg_log (zip_with fdiv ir i0))
              (forallb isfinite (zip_with fdiv iff i0))).

(** [check_scan(df, md)].  The two dictionaries hold the four default keys,
    so their look-ups cannot fail. *)
Definition check_scan (df : DataFrame) (md : Metadata) : result mu_flags :=
  df_mV <- degain df md default_df_keys default_md_keys ;;
  unsaturated_currents <- check_saturation df_mV default_df_keys default_saturation_threshold ;;
  good_amp_currents <- check_amplitude df_mV default_df_keys default_amplitude_threshold ;;
  valid_mu <- check_mu_values df_mV ;;
  amp_i0 <- dict_getitem good_amp_currents "i0"%string ;;
  amp_it <- dict_getitem good_amp_currents "it"%string ;;
  unsat_i0 <- dict_getitem unsaturated_currents "i0"%string ;;
  unsat_it <- dict_getitem unsaturated_currents "it"%string ;;
  unsat_ir <- dict_getitem unsaturated_currents "ir"%string ;;
  unsat_iff <- dict_getitem unsaturated_currents "iff"%string ;;
  Ok (MuFlags (amp_i0 && unsat_i0 && unsat_it && mut valid_mu)
              (amp_it && unsat_it && unsat_ir && mur valid_mu)
              (amp_i0 && unsat_i0 && unsat_iff && muf valid_mu)).

(** *** Averaging a scan group *)

Definition default_columns : list string := ["mut"; "muf"; "mur"]%string.

(** The three dictionaries the loop of [average_scangroup] fills. *)
Record averaging : Type := Averaging {
  avg_data : dict array;
  outliers_dict : dict (list bool);
  dev_from_mean_dict : dict array
}.

(** [np.array(rows)] of rows of one length. *)
Definition np_array (chans : list array) : ndarray2 :=
  Array2 (List.length (hd [] chans)) chans.

(** One iteration of the loop over the columns.  The normalised curves are
    only plotted, but the call that computes them can raise; the plots
    themselves are left out. *)
Definition average_column (dfs : list DataFrame) (col : string) (acc : averaging)
  : result averaging :=
  chans <- mapM (fun df => getitem df col) dfs ;;
  let all_data := np_array chans in
  all_data_prenorm <- prenormalize_data all_data ;;
  r <- check_for_outliers all_data default_trim_fraction default_check_threshold ;;
  kept <- getitem_mask (rows all_data) (map negb (snd r)) ;;
  Ok (Averaging
        (dict_set (avg_data acc) col
           (reduce_axis0 np_mean (Array2 (shape1 all_data) kept)))
        (dict_set (outliers_dict acc) col (snd r))
        (dict_set (dev_from_mean_dict acc) col (fst r))).

(** [pd.DataFrame(d)] of a dict of columns: [ValueError] unless the columns
    have one length. *)
Definition frame_of_dict (d : dict array) : result DataFrame :=
  match d with
  | [] => Ok []
  | (_, v) :: d' =>
      if forallb (fun kv => List.length (snd kv) =? List.length v) d' then Ok d
      else Raise ValueError
  end.

(** [average_scangroup(dfs, columns, energy_key)].  The group is aligned
    with the default coordinate name, whatever [energy_key] is. *)
Definition average_scangroup (dfs : list DataFrame) (columns : list string)
  (energy_key : string) : result (DataFrame * dict (list bool) * dict array) :=
  dfs' <- standardize_energy_grid dfs "energy"%string ;;
  match dfs' with
  | [] => Raise IndexError
  | df0 :: _ =>
      energy <- getitem df0 energy_key ;;
      acc <- foldM (average_column dfs') columns
               (Averaging [(energy_key, energy)] [] []) ;;
      avg <- frame_of_dict (avg_data acc) ;;
      Ok (avg, outliers_dict acc, dev_from_mean_dict acc)
  end.

End Analysis.

(* ================================================================= *)
(** ** xas/outliers.py *)

Module Outliers.

Import Np.
Import Analysis.

(** The capability the code uses of an sklearn estimator: [fit] stores a
    fitted state in the estimator, [predict] labels rows [+1] or [-1]. *)
Class Estimator : Type := {
  fitted : Type;
  fit : ndarray2 -> result fitted;
  predict : fitted -> ndarray2 -> result (list Z)
}.

(** A call site: the arguments are bound to the callee's parameters before
    its body runs. *)
Definition call {A : Type} (s : signature) (n_positional : nat)
  (keywords : list string) (body : result A) : result A :=
  if binds s n_positional keywords then body else Raise TypeError.

Definition mad_scale : Qc := qc 67449 100000.

(** [data - np.median(data, axis=0)]. *)
Definition deviations (data : ndarray2) : ndarray2 :=
  broadcast_rows fsub data (reduce_axis0 np_median data).

(** The scale estimate [mad] of [calc_mod_chisq]. *)
Definition mad (data : ndarray2) : npfloat :=
  fdiv (np_median (ravel (map_array2 fabs (deviations data)))) (Fin mad_scale).

(** [calc_mod_chisq(data)].  [1 / n_pts] divides Python integers and raises
    on a matrix without columns; the divisions by [mad] are array
    divisions, which do not raise. *)
Definition calc_mod_chisq (data : ndarray2) : result array :=
  let mad := mad data in
  let ksi := map_array2 (fun d => fdiv d mad) (deviations data) in
  let n_pts := shape1 data in
  if n_pts =? 0 then Raise ZeroDivisionError
  else
    Ok (map (fun s => fmul (fdiv (of_nat 1) (of_nat n_pts)) s)
            (reduce_axis1 np_sum (map_array2 fsq ksi))).

Definition default_threshold : Qc := qc 30 1.

(** [modified_chisq_rejection(data, threshold=30)]. *)
Definition modified_chisq_rejection (data : ndarray2) (threshold : Qc)
  : result (list Z) :=
  mod_chisq <- calc_mod_chisq data ;;
  let results := map (fun s => fgtb s (Fin threshold)) mod_chisq in
  Ok (map (fun res : bool => if res then (-1)%Z else 1%Z) results).

(** [labels > 0] and [labels < 0]. *)
Definition positive (labels : list Z) : list bool := map (fun l => (0 <? l)%Z) labels.
Definition negative (labels : list Z) : list bool := map (fun l => (l <? 0)%Z) labels.

Section WithEstimator.

(** [LocalOutlierFactor(novelty=True)]. *)
Context {LocalOutlierFactor : Estimator}.

(** [fit_trimmed(estimator, data, trim_fraction)]. *)
Definition fit_trimmed (data : ndarray2) (trim_fraction : Qc) : result fitted :=
  trim_data <- Stats.trimboth data (trim_fraction / qc 2 1)%Qc ;;
  fit trim_data.

(** [MCS_into_LOF(data, threshold=30)]. *)
Definition MCS_into_LOF (data : ndarray2) (threshold : Qc) : result (list Z) :=
  mod_chisq_results <- modified_chisq_rejection data threshold ;;
  reduced_rows <- getitem_mask (rows data) (positive mod_chisq_results) ;;
  let reduced_data := Array2 (shape1 data) reduced_rows in
  if shape0 reduced_data <? 2 then Ok (repeat 1%Z (shape0 data))
  else
    est <- fit reduced_data ;;
    predict est data.

(** What [outlier_rejection] reports for one method on one channel. *)
Record method_result : Type := MethodResult {
  inliers : list string;
  outliers : list string;
  average : array
}.

Record channel_result : Type := ChannelResult {
  trimmed_lof : method_result;
  mod_chisq : method_result;
  combined : method_result
}.

(** The three statements that follow each classifier in the loop:
    [uids[labels > 0]], [uids[labels < 0]] and
    [np.mean(data[labels > 0], axis=0)]. *)
Definition report (uids : list string) (data : ndarray2) (labels : list Z)
  : result method_result :=
  ins <- getitem_mask uids (positive labels) ;;
  outs <- getitem_mask uids (negative labels) ;;
  kept <- getitem_mask (rows data) (positive labels) ;;
  Ok (MethodResult ins outs (reduce_axis0 np_mean (Array2 (shape1 data) kept))).

(** The body of the loop over the channels. *)
Definition channel_rejection (scangroup : list DataFrame) (uids : list string)
  (energy : array) (ch : string) : result channel_result :=
  chans <- mapM (fun scan => getitem scan ch) scangroup ;;
  let data := Array2 (List.length energy) chans in
  data_prenorm <- call prenormalize_data_sig 2 [] (prenormalize_data data) ;;
  est <- fit_trimmed data (qc 4 10) ;;
  lof_results <- predict est data_prenorm ;;
  r_lof <- report uids data lof_results ;;
  mcs_results <- modified_chisq_rejection data_prenorm default_threshold ;;
  r_mcs <- report uids data mcs_results ;;
  combined_results <- MCS_into_LOF data_prenorm default_threshold ;;
  r_comb <- report uids data combined_results ;;
  Ok (ChannelResult r_lof r_mcs r_comb).

(** [scangroup[master_idx]]. *)
Definition getitem_index {A : Type} (l : list A) (i : nat) : result A :=
  match nth_error l i with
  | Some a => Ok a
  | None => Raise IndexError
  end.

(** [outlier_rejection(scangroup, uids, channels, master_idx, energy_key)]
    with [plot_diagnostics=False]; returns [(average_mus, results)], here
    the master grid and, per channel, the averages and the uid lists of the
    three methods. *)
Definition outlier_rejection (scangroup : list DataFrame) (uids : list string)
  (channels : list string) (master_idx : nat) (energy_key : string)
  : result (array * list (string * channel_result)) :=
  scangroup' <- call standardize_energy_grid_sig 1 ["master_idx"; "energy_key"]%string
                  (standardize_energy_grid scangroup energy_key) ;;
  master <- getitem_index scangroup' master_idx ;;
  energy <- getitem master energy_key ;;
  per_channel <- mapM (fun ch =>
                         r <- channel_rejection scangroup' uids energy ch ;;
                         Ok (ch, r)) channels ;;
  Ok (energy, per_channel).

End WithEstimator.

(** *** [check_refs] *)

(** A row of the scan-group table, as far as [check_refs] reads it.  The
    cell [data] holds a reference to the frame of the scan; the rows are
    labelled by their positions.  The column [mur_source] is overwritten
    first, so it is no input: it is the second component of a row of the
    table that [check_refs] leaves behind. *)
Record scan_row : Type := ScanRow {
  row_uid : string;
  row_time : Qc;
  row_mur_good : bool;
  row_data : nat
}.

(** The frames the cells refer to. *)
Definition heap : Type := nat -> DataFrame.

Definition heap_set (h : heap) (a : nat) (df : DataFrame) : heap :=
  fun a' => if a' =? a then df else h a'.

Definition n_rows (df : DataFrame) : nat :=
  match df with
  | [] => 0
  | (_, v) :: _ => List.length v
  end.

(** [value.reindex(range(n))] of a Series with the default index. *)
Definition reindex (n : nat) (value : array) : array :=
  firstn n value ++ repeat NaN (n - List.length value).

(** [df[key] = value] for a Series [value]: the values are aligned on the
    row labels of the frame; a frame without rows takes the labels of the
    Series and fills its other columns with [nan]. *)
Definition setitem_series (df : DataFrame) (key : string) (value : array) : DataFrame :=
  if (n_rows df =? 0) && negb (List.length value =? 0) then
    dict_set (map (fun kv => (fst kv, repeat NaN (List.length value))) df) key value
  else dict_set df key (reindex (n_rows df) value).

(** [np.abs(scan_time - t)]. *)
Definition time_distance (scan_time t : Qc) : Qc :=
  let d := (scan_time - t)%Qc in
  match sgn d with
  | Lt => (- d)%Qc
  | _ => d
  end.

(** [np.abs(scan_time - good_ref_df["time"]).idxmin()]: the first row at
    the least distance; [ValueError] on an empty table. *)
Definition idxmin (scan_time : Qc) (good_ref_df : list (nat * scan_row))
  : result (nat * scan_row) :=
  match good_ref_df with
  | [] => Raise ValueError
  | g :: rest =>
      Ok (fold_left
            (fun best cand =>
               match (time_distance scan_time (row_time (snd cand))
                      ?= time_distance scan_time (row_time (snd best)))%Qc with
               | Lt => cand
               | _ => best
               end)
            rest g)
  end.

(** [table.loc[i, "mur_source"] = source]. *)
Fixpoint loc_set_source (table : list (scan_row * option string)) (i : nat)
  (source : option string) : list (scan_row * option string) :=
  match table, i with
  | [], _ => []
  | (r, _) :: table', O => (r, source) :: table'
  | row :: table', S i' => row :: loc_set_source table' i' source
  end.

(** The body of the loop over the rows with a bad reference. *)
Definition borrow_ref (good_ref_df : list (nat * scan_row)) (bad : nat * scan_row)
  (st : list (scan_row * option string) * heap)
  : result (list (scan_row * option string) * heap) :=
  closest <- idxmin (row_time (snd bad)) good_ref_df ;;
  source_mur <- getitem (snd st (row_data (snd closest))) "mur"%string ;;
  Ok (loc_set_source (fst st) (fst bad) (Some (row_uid (snd closest))),
      heap_set (snd st) (row_data (snd bad))
        (setitem_series (snd st (row_data (snd bad))) "mur"%string source_mur)).

(** [check_refs(sg_df_uid)]: the table and the frames as the call leaves
    them (the message it prints is left out). *)
Definition check_refs (sg_df_uid : list scan_row) (h : heap)
  : result (list (scan_row * option string) * heap) :=
  let table := map (fun r => (r, @None string)) sg_df_uid in
  if forallb row_mur_good sg_df_uid then Ok (table, h)
  else if forallb (fun r => negb (row_mur_good r)) sg_df_uid then Ok (table, h)
  else
    let labelled := combine (seq 0 (List.length sg_df_uid)) sg_df_uid in
    let bad_ref_df := filter (fun ir => negb (row_mur_good (snd ir))) labelled in
    let good_ref_df := filter (fun ir => row_mur_good (snd ir)) labelled in
    foldM (borrow_ref good_ref_df) bad_ref_df (table, h).

Definition default_channels : list string := ["mut"; "muf"; "mur"]%string.

(** An estimator that finds every row an inlier, to run the code on. *)
Definition all_inlier_estimator : Estimator :=
  {| fitted := unit;
     fit := fun _ => Ok tt;
     predict := fun _ data => Ok (repeat 1%Z (shape0 data)) |}.

End Outliers.

(* ================================================================= *)
(** ** The trimmed statistics in float64 arithmetic *)

Module Rounded.

Import Np Stats Analysis Outliers.
Local Open Scope nat_scope.

(** The float64 operations that [check_for_outliers] and [fit_trimmed] go
    through.  Each of them rounds, [np.sum], [np.mean] and [np.std] add in an
    order of their own, and [np.partition] leaves the values between the two
    positions it is given in no particular order.  None of this is fixed
    here: the operations are an interface, and the only law is the one numpy
    documents for [np.partition], that the values at the positions [k1] to
    [k2] are the order statistics of these ranks ([nan] last, as in
    [np.sort]).  What is proved from the interface holds whatever the
    rounding. *)
Class Arith : Type := {
  mul : npfloat -> npfloat -> npfloat;          (* [x * y] *)
  sub : npfloat -> npfloat -> npfloat;          (* [x - y] *)
  div : npfloat -> npfloat -> npfloat;          (* [x / y] *)
  square : npfloat -> npfloat;                  (* [x ** 2] *)
  sum : array -> npfloat;                       (* [np.sum] along a row *)
  mean : array -> npfloat;                      (* [np.mean] along a column *)
  std : array -> npfloat;                       (* [np.std] along a column *)
  partition : nat -> nat -> array -> array;     (* [np.partition(a, (k1, k2))] *)
  partition_slice :
    forall (k1 k2 : nat) (a : array),
      k1 <= k2 -> k2 < List.length a ->
      Permutation (slice k1 (S k2) (partition k1 k2 a)) (slice k1 (S k2) (np_sort a))
}.

(** [int(x)] of a float: truncation towards zero; [ValueError] on [nan],
    [OverflowError] on an infinity. *)
Definition int_float (x : npfloat) : result Z :=
  match x with
  | Fin q => Ok (int_of q)
  | NaN => Raise ValueError
  | PInf | NInf => Raise OverflowError
  end.

Section WithArith.

Context {float64 : Arith}.

(** [scipy.stats.trimboth(a, proportiontocut, axis=0)].  [np.partition]
    raises [ValueError] when a negative [lowercut] puts [uppercut - 1] out of
    bounds. *)
Definition trimboth (a : ndarray2) (proportiontocut : npfloat) : result ndarray2 :=
  if (size a =? 0)%nat then Ok a
  else
    let nobs := shape0 a in
    lowercut <- int_float (mul proportiontocut (of_nat nobs)) ;;
    let uppercut := (Z.of_nat nobs - lowercut)%Z in
    if (lowercut >=? uppercut)%Z then Raise ValueError
    else if (lowercut <? 0)%Z then Raise ValueError
    else
      let lo := Z.to_nat lowercut in
      let hi := Z.to_nat uppercut in
      Ok (of_columns (hi - lo)
            (map (fun c => slice lo hi (partition lo (hi - 1) c)) (columns a))).

(** [check_for_outliers(all_data, trim_fraction=0.2, threshold=25)]. *)
Definition check_for_outliers (all_data : ndarray2) (trim_fraction : npfloat)
  (threshold : Qc) : result (array * list bool) :=
  let n_pts := shape1 all_data in
  trim_data <- trimboth all_data trim_fraction ;;
  let trim_mean := reduce_axis0 mean trim_data in
  let trim_std := reduce_axis0 std trim_data in
  let deviation_from_mean :=
    map (fun s => div s (of_nat n_pts))
        (reduce_axis1 sum
           (map_array2 square
              (broadcast_rows div (broadcast_rows sub all_data trim_mean) trim_std))) in
  Ok (deviation_from_mean, map (fun d => fgtb d (Fin threshold)) deviation_from_mean).

(** [fit_trimmed(estimator, data, trim_fraction)]. *)
Definition fit_trimmed {estimator : Estimator} (data : ndarray2) (trim_fraction : npfloat)
  : result fitted :=
  trim_data <- trimboth data (div trim_fraction (of_nat 2)) ;;
  fit trim_data.

End WithArith.

(** The square root of a rational, rounded down to nine decimals. *)
Definition sqrt_down (x : npfloat) : npfloat :=
  match x with
  | Fin q =>
      if (Qnum q <? 0)%Z then NaN
      else Fin (qc (Z.sqrt (Qnum q * 1000000000000000000 / Zpos (Qden q))) 1000000000)
  | PInf => PInf
  | NInf | NaN => NaN
  end.

(** An arithmetic to run the code on: only the square root rounds, and
    [np.partition] sorts. *)
Definition exact : Arith :=
  {| mul := fmul;
     sub := fsub;
     div := fdiv;
     square := fsq;
     sum := np_sum;
     mean := np_mean;
     std := fun l => sqrt_down (np_var l);
     partition := fun _ _ => np_sort;
     partition_slice := fun k1 k2 a _ _ => Permutation_refl _ |}.

End Rounded.

(* ================================================================= *)
(** ** The components as the specification words them *)

Module Spec.

Import Np.

(** The value of scan [i] at grid point [j]. *)
Definition entry (a : ndarray2) (i j : nat) : npfloat :=
  nth j (nth i (rows a) []) NaN.

Definition grid (a : ndarray2) : list nat := seq 0 (shape1 a).
Definition scans (a : ndarray2) : list nat := seq 0 (shape0 a).

(** *** ChiSquareScorer *)

Definition column_median (a : ndarray2) (j : nat) : npfloat :=
  np_median (column j a).

(** The median absolute deviation of all [(value - column_median)] entries
    of the matrix, scaled by [1 / scale]. *)
Definition scaled_mad (scale : Qc) (a : ndarray2) : npfloat :=
  fmul (np_median
          (flat_map (fun i =>
                       map (fun j => fabs (fsub (entry a i j) (column_median a j)))
                           (grid a))
                    (scans a)))
       (Fin (1 / scale)%Qc).

(** The robust z-score of a point. *)
Definition robust_z (scale : Qc) (a : ndarray2) (i j : nat) : npfloat :=
  fdiv (fsub (entry a i j) (column_median a j)) (scaled_mad scale a).

(** The score of a row: the mean over the columns of the squared robust
    z-scores. *)
Definition chisq_score (scale : Qc) (a : ndarray2) (i : nat) : npfloat :=
  np_mean (map (fun j => fsq (robust_z scale a i j)) (grid a)).

Definition chisq_scores (scale : Qc) (a : ndarray2) : array :=
  map (chisq_score scale a) (scans a).

(** Outlier ([-1]) iff the score exceeds the threshold, else inlier ([+1]). *)
Definition chisq_label (threshold : Qc) (score : npfloat) : Z :=
  if fgtb score (Fin threshold) then (-1)%Z else 1%Z.

(** *** RobustStatistics *)

(** How many values a fraction of [n] values is. *)
Definition n_discard (fraction : Qc) (n : nat) : nat :=
  Z.to_nat (Qfloor (fraction * qc (Z.of_nat n) 1)%Qc).

Definition drop_last {A : Type} (k : nat) (l : list A) : list A :=
  rev (skipn k (rev l)).

(** A column with its [k] smallest and its [k] largest values discarded. *)
Definition trimmed (k : nat) (col : array) : array :=
  drop_last k (skipn k (np_sort col)).

Definition trimmed_mean (fraction : Qc) (a : ndarray2) (j : nat) : npfloat :=
  np_mean (trimmed (n_discard fraction (shape0 a)) (column j a)).

Definition trimmed_std (fraction : Qc) (a : ndarray2) (j : nat) : stddev :=
  np_std (trimmed (n_discard fraction (shape0 a)) (column j a)).

(** The deviation score of a row when [fraction] of the values is discarded
    at each end of every column: the mean over the columns of
    [((value - trimmed_mean) / trimmed_std) ** 2]. *)
Definition deviation_score (fraction : Qc) (a : ndarray2) (i : nat) : npfloat :=
  np_mean (map (fun j => sq_quot (fsub (entry a i j) (trimmed_mean fraction a j))
                                 (trimmed_std fraction a j))
               (grid a)).

Definition deviation_scores (fraction : Qc) (a : ndarray2) : array :=
  map (deviation_score fraction a) (scans a).

Definition exceeds (threshold : Qc) (scores : array) : list bool :=
  map (fun s => fgtb s (Fin threshold)) scores.

(** The values kept of a column when [k] are cut at each end: its order
    statistics of the ranks in between, in some order. *)
Definition kept_of (k : nat) (col c : array) : Prop :=
  Permutation c (Stats.slice k (List.length col - k) (np_sort col)).

(** The score of a row against the kept values of the columns, in the
    float64 arithmetic of the code: the sum over the columns of
    [((value - mean) / std) ** 2], over the number of columns. *)
Definition score_against {float64 : Rounded.Arith} (kept : list array) (n_pts : nat)
  (row : array) : npfloat :=
  Rounded.div
    (Rounded.sum
       (zip_with (fun v c => Rounded.square
                               (Rounded.div (Rounded.sub v (Rounded.mean c))
                                  (Rounded.std c)))
                 row kept))
    (of_nat n_pts).

(** *** GridAligner *)

(** A coordinate sequence is strictly increasing. *)
Fixpoint increasing (l : array) : bool :=
  match l with
  | a :: (b :: _) as t => fltb a b && increasing t
  | _ => true
  end.

(** A grid the specification calls invalid: not strictly increasing, or
    fewer than two points. *)
Definition invalid_grid (l : array) : bool :=
  negb (increasing l) || (List.length l <? 2).

End Spec.

(* ================================================================= *)
(** * Properties *)

Open Scope nat_scope.

(** ** Lists and outcomes *)

Section Lists.

Context {A B : Type}.

Lemma mapM_ok (f : A -> result B) (g : A -> B) (l : list A) :
  (forall a, In a l -> f a = Ok (g a)) -> mapM f l = Ok (map g l).
Proof.
  induction l as [|a l IH]; simpl; intros H; [reflexivity|].
  rewrite (H a) by now left. simpl.
  rewrite IH by (intros; apply H; now right). reflexivity.
Qed.

Lemma map_nth_seq (d : A) (l : list A) :
  map (fun j => nth j l d) (seq 0 (List.length l)) = l.
Proof.
  induction l as [|a l IH]; [reflexivity|].
  simpl. f_equal. rewrite <- seq_shift, map_map. exact IH.
Qed.

Lemma zip_with_length {C : Type} (f : A -> B -> C) (l : list A) (l' : list B) :
  List.length l = List.length l' -> List.length (Np.zip_with f l l') = List.length l.
Proof.
  revert l'; induction l as [|a l IH]; intros [|b l']; simpl; intros H;
    try discriminate; auto.
Qed.

End Lists.

(** ** Arithmetic of float values *)

Module NpFacts.

Import Np.
Local Open Scope Qc_scope.

Lemma same_eq (x y : npfloat) : same x y = true -> x = y.
Proof.
  destruct x, y; simpl; try discriminate; try reflexivity.
  intros H; f_equal; now apply Qc_eq_bool_correct.
Qed.

Lemma Qc_eq_bool_refl (q : Qc) : Qc_eq_bool q q = true.
Proof. unfold Qc_eq_bool. destruct (Qc_eq_dec q q); congruence. Qed.

Lemma same_refl (x : npfloat) : same x x = true.
Proof. destruct x; simpl; auto using Qc_eq_bool_refl. Qed.

Lemma fgtb_nan (t : npfloat) : fgtb NaN t = false.
Proof. now destruct t. Qed.

Lemma fmul_nan_r (x : npfloat) : fmul x NaN = NaN.
Proof. now destruct x. Qed.

Lemma sgn_Gt (q : Qc) : sgn q = Gt <-> 0 < q.
Proof. unfold sgn. symmetry. apply Qcgt_alt. Qed.

Lemma qc_of_nat_pos (n : nat) : (0 < n)%nat -> 0 < qc (Z.of_nat n) 1.
Proof.
  intros H. unfold qc, Qclt, Q2Qc, this.
  rewrite !Qred_correct. unfold Qlt; simpl. lia.
Qed.

Lemma sgn_of_nat (n : nat) : (0 < n)%nat -> sgn (qc (Z.of_nat n) 1) = Gt.
Proof. intros H. apply sgn_Gt. now apply qc_of_nat_pos. Qed.

Lemma fltb_Fin (a b : Qc) : fltb (Fin a) (Fin b) = true <-> a < b.
Proof.
  cbn [fltb]. rewrite Qclt_alt. destruct (a ?= b); split; congruence.
Qed.

End NpFacts.


(** ** Degenerate and non-finite values *)

Module Degenerate.

Import Np NpFacts.
Local Open Scope Qc_scope.

(** What a deviation from a median is when all values agree: [0], or [nan]
    when the values are not finite. *)
Definition degenerate (x : npfloat) : Prop := x = Fin 0 \/ x = NaN.

(** What a quotient by a zero float and its square are. *)
Definition nan_or_inf (x : npfloat) : Prop := x = NaN \/ x = PInf.

Lemma fsub_diag (v : npfloat) : degenerate (fsub v v).
Proof.
  destruct v; unfold degenerate; simpl; auto.
  left. f_equal. apply Qcplus_opp_r.
Qed.

Lemma fabs_degenerate (x : npfloat) : degenerate x -> degenerate (fabs x).
Proof. intros [-> | ->]; [left | right]; reflexivity. Qed.

Lemma fdiv_degenerate (x y : npfloat) :
  degenerate x -> degenerate y -> fdiv x y = NaN.
Proof. intros [-> | ->] [-> | ->]; reflexivity. Qed.

Lemma fltb_irrefl (x : npfloat) : fltb x x = false.
Proof.
  destruct x; simpl; auto.
  assert (H : (q ?= q) = Eq) by now apply Qceq_alt.
  now rewrite H.
Qed.

Lemma sort_leb_refl (x : npfloat) : sort_leb x x = true.
Proof.
  destruct x; try reflexivity.
  unfold sort_leb. now rewrite fltb_irrefl.
Qed.

Lemma np_sort_repeat (v : npfloat) (n : nat) : np_sort (repeat v n) = repeat v n.
Proof.
  induction n as [|n IH]; [reflexivity|].
  change (np_sort (repeat v (S n))) with (insert_sorted v (np_sort (repeat v n))).
  rewrite IH.
  destruct n; [reflexivity|]. simpl. now rewrite sort_leb_refl.
Qed.

Lemma nth_repeat_lt {A : Type} (v d : A) (n k : nat) :
  (k < n)%nat -> nth k (repeat v n) d = v.
Proof.
  revert k; induction n as [|n IH]; intros k H; [lia|].
  destruct k; simpl; [reflexivity|]. apply IH. lia.
Qed.

Lemma existsb_isnan_repeat (v : npfloat) (n : nat) :
  isnan v = false -> existsb isnan (repeat v n) = false.
Proof. intros H. induction n; simpl; [reflexivity|]. now rewrite H. Qed.

Lemma half_double (v : npfloat) : isnan v = false -> fdiv (fadd v v) (of_nat 2) = v.
Proof.
  destruct v; try discriminate; intros _; try reflexivity.
  change (of_nat 2) with (Fin (qc 2 1)). unfold fadd, fdiv.
  replace (sgn (qc 2 1)) with Gt by reflexivity.
  f_equal. replace (qc 2 1) with (1 + 1) by (apply Qc_is_canon; reflexivity).
  field. intros H. apply Qceq_alt in H. discriminate.
Qed.

(** The median of equal values is that value. *)
Lemma np_median_repeat (v : npfloat) (n : nat) :
  (0 < n)%nat -> np_median (repeat v n) = v.
Proof.
  intros Hn. unfold np_median.
  destruct (isnan v) eqn:Hv.
  - destruct v; try discriminate. destruct n; [lia|]. reflexivity.
  - rewrite existsb_isnan_repeat by assumption.
    rewrite repeat_length, np_sort_repeat.
    destruct n as [|n]; [lia|].
    assert (Hhalf : (S n / 2 < S n)%nat) by (apply Nat.div_lt; lia).
    destruct (Nat.odd (S n)).
    + now apply nth_repeat_lt.
    + rewrite !nth_repeat_lt by lia. now apply half_double.
Qed.

Lemma np_median_degenerate (l : array) : Forall degenerate l -> degenerate (np_median l).
Proof.
  intros H.
  destruct (existsb isnan l) eqn:Hnan.
  - right. unfold np_median. now rewrite Hnan.
  - assert (Hl : l = repeat (Fin 0) (List.length l)).
    { induction H as [|x l Hx _ IH]; [reflexivity|].
      simpl in Hnan. apply orb_false_elim in Hnan as [Hx' Hl].
      destruct Hx as [-> | ->]; [|discriminate]. simpl. f_equal. now apply IH. }
    rewrite Hl. destruct (List.length l) as [|n].
    + now right.
    + left. apply np_median_repeat. lia.
Qed.

Lemma fdiv_zero_scale : fdiv (Fin 0) (Fin Outliers.mad_scale) = Fin 0.
Proof. simpl. f_equal. apply Qc_is_canon. reflexivity. Qed.

(** Division by a zero float never gives a finite value. *)
Lemma fdiv_by_zero (d : npfloat) : isfinite (fdiv d (Fin 0)) = false.
Proof.
  destruct d; simpl; auto.
  destruct (sgn q); reflexivity.
Qed.

Lemma fsq_nonfinite (x : npfloat) : isfinite x = false -> nan_or_inf (fsq x).
Proof. destruct x; simpl; try discriminate; intros _; [right|right|left]; reflexivity. Qed.

Lemma np_sum_nan_or_inf (l : array) :
  l <> [] -> Forall nan_or_inf l -> nan_or_inf (np_sum l).
Proof.
  intros Hl H. induction H as [|x l Hx Hall IH]; [congruence|].
  simpl. destruct l as [|y l].
  - destruct Hx as [-> | ->]; [left | right]; reflexivity.
  - specialize (IH ltac:(discriminate)). 
    destruct Hx as [-> | ->], IH as [-> | ->]; simpl; unfold nan_or_inf; auto.
Qed.

Lemma Qcinv_pos (q : Qc) : 0 < q -> 0 < / q.
Proof.
  unfold Qclt, Qcinv, Q2Qc, this. destruct q as [q Hq]; simpl.
  rewrite !Qred_correct. apply Qinv_lt_0_compat.
Qed.

(** [1 / n_pts] *)
Lemma fdiv_one_nat (n : nat) :
  (0 < n)%nat ->
  fdiv (of_nat 1) (of_nat n) = Fin (/ qc (Z.of_nat n) 1) /\ sgn (/ qc (Z.of_nat n) 1) = Gt.
Proof.
  intros Hn. split.
  - unfold of_nat, of_Z, fdiv. rewrite sgn_of_nat by assumption.
    f_equal. change (qc (Z.of_nat 1) 1) with 1. unfold Qcdiv. apply Qcmult_1_l.
  - apply sgn_Gt, Qcinv_pos. now apply qc_of_nat_pos.
Qed.

Lemma fmul_inv_nat_nan_or_inf (n : nat) (s : npfloat) :
  (0 < n)%nat -> nan_or_inf s -> nan_or_inf (fmul (fdiv (of_nat 1) (of_nat n)) s).
Proof.
  intros Hn Hs. destruct (fdiv_one_nat Hn) as [-> Hsgn].
  destruct Hs as [-> | ->]; simpl; [now left|]. rewrite Hsgn. now right.
Qed.

End Degenerate.


(** ** Deciding equality of computed arrays *)

Module Decide.

Import Np NpFacts.

Fixpoint same_array (l l' : array) : bool :=
  match l, l' with
  | [], [] => true
  | x :: t, y :: t' => same x y && same_array t t'
  | _, _ => false
  end.

Lemma same_array_eq (l l' : array) : same_array l l' = true -> l = l'.
Proof.
  revert l'; induction l as [|x l IH]; intros [|y l']; simpl; try discriminate; auto.
  intros H. apply andb_prop in H as [Hx Hl].
  f_equal; [now apply same_eq | now apply IH].
Qed.

Lemma same_array_refl (l : array) : same_array l l = true.
Proof. induction l; simpl; [reflexivity|]. now rewrite same_refl. Qed.

Lemma same_array_neq (l l' : array) : same_array l l' = false -> l <> l'.
Proof. intros H ->. rewrite same_array_refl in H. discriminate. Qed.

Fixpoint same_rows (l l' : list array) : bool :=
  match l, l' with
  | [], [] => true
  | x :: t, y :: t' => same_array x y && same_rows t t'
  | _, _ => false
  end.

Lemma same_rows_eq (l l' : list array) : same_rows l l' = true -> l = l'.
Proof.
  revert l'; induction l as [|x l IH]; intros [|y l']; simpl; try discriminate; auto.
  intros H. apply andb_prop in H as [Hx Hl].
  f_equal; [now apply same_array_eq | now apply IH].
Qed.

Lemma Ok_inj {A : Type} (a b : A) : Ok a = Ok b -> a = b.
Proof. intros H. now injection H. Qed.

End Decide.

(** Closes an equation between two computed values, arrays or matrices. *)
Ltac by_computation :=
  first [ apply NpFacts.same_eq | apply Decide.same_array_eq | apply Decide.same_rows_eq ];
  vm_compute; reflexivity.

(** ** ChiSquareScorer *)

Module ChiSquare.

Import Np NpFacts Degenerate Outliers.

(** The score [calc_mod_chisq] gives a row, from the row's deviations. *)
Definition row_score (data : ndarray2) (dev : array) : npfloat :=
  fmul (fdiv (of_nat 1) (of_nat (shape1 data)))
       (np_sum (map fsq (map (fun d => fdiv d (mad data)) dev))).

Lemma calc_mod_chisq_rows (data : ndarray2) :
  shape1 data <> 0 ->
  calc_mod_chisq data = Ok (map (row_score data) (rows (deviations data))).
Proof.
  intros H. unfold calc_mod_chisq.
  destruct (shape1 data =? 0) eqn:E; [apply Nat.eqb_eq in E; contradiction|].
  f_equal. unfold reduce_axis1, map_array2; simpl. now rewrite !map_map.
Qed.

Lemma calc_mod_chisq_length (data : ndarray2) (scores : array) :
  calc_mod_chisq data = Ok scores -> List.length scores = shape0 data.
Proof.
  unfold calc_mod_chisq. destruct (shape1 data =? 0); [discriminate|].
  intros H; inversion H; subst. unfold reduce_axis1, map_array2; simpl.
  now rewrite !length_map.
Qed.

Lemma modified_chisq_rejection_length (data : ndarray2) (threshold : Qc) (labels : list Z) :
  modified_chisq_rejection data threshold = Ok labels -> List.length labels = shape0 data.
Proof.
  unfold modified_chisq_rejection.
  destruct (calc_mod_chisq data) as [scores|] eqn:E; simpl; [|discriminate].
  intros H; inversion H; subst. rewrite !length_map.
  now apply calc_mod_chisq_length.
Qed.

Lemma length_medians (data : ndarray2) :
  List.length (reduce_axis0 np_median data) = shape1 data.
Proof. unfold reduce_axis0, columns. now rewrite !length_map, length_seq. Qed.

Lemma deviations_row_length (data : ndarray2) (dev : array) :
  wf data -> In dev (rows (deviations data)) -> List.length dev = shape1 data.
Proof.
  intros Hwf Hin. unfold deviations, broadcast_rows in Hin; simpl in Hin.
  apply in_map_iff in Hin as (r & <- & Hr).
  unfold wf in Hwf. rewrite Forall_forall in Hwf.
  rewrite zip_with_length; [now apply Hwf|].
  rewrite length_medians. now apply Hwf.
Qed.

(** The columns of a matrix of equal rows. *)
Lemma column_repeat (r : array) (n j : nat) :
  column j (Array2 (List.length r) (repeat r n)) = repeat (nth j r NaN) n.
Proof. unfold column; simpl. apply map_repeat. Qed.

Lemma medians_repeat (r : array) (n : nat) :
  0 < n -> reduce_axis0 np_median (Array2 (List.length r) (repeat r n)) = r.
Proof.
  intros Hn. unfold reduce_axis0, columns. rewrite map_map.
  cbn [shape1].
  transitivity (map (fun j => nth j r NaN) (seq 0 (List.length r)));
    [|apply map_nth_seq].
  apply map_ext. intros j. rewrite column_repeat. now apply np_median_repeat.
Qed.

Lemma zip_with_diag (r : array) : Forall degenerate (zip_with fsub r r).
Proof. induction r; simpl; constructor; auto using fsub_diag. Qed.

Lemma deviations_repeat (r : array) (n : nat) :
  0 < n ->
  rows (deviations (Array2 (List.length r) (repeat r n))) = repeat (zip_with fsub r r) n.
Proof.
  intros Hn. unfold deviations, broadcast_rows. cbn [rows shape1].
  rewrite medians_repeat by assumption. now rewrite map_repeat.
Qed.

Lemma Forall_concat_repeat {A : Type} (P : A -> Prop) (l : list A) (n : nat) :
  Forall P l -> Forall P (List.concat (repeat l n)).
Proof.
  intros H. induction n; simpl; [constructor|]. apply Forall_app; auto.
Qed.

Lemma mad_repeat (r : array) (n : nat) :
  0 < n -> degenerate (mad (Array2 (List.length r) (repeat r n))).
Proof.
  intros Hn. unfold mad.
  assert (Hm : degenerate
                 (np_median (ravel (map_array2 fabs
                    (deviations (Array2 (List.length r) (repeat r n))))))).
  { apply np_median_degenerate. unfold ravel, map_array2. cbn [rows].
    rewrite deviations_repeat by assumption. rewrite map_repeat.
    apply Forall_concat_repeat. apply Forall_map.
    eapply Forall_impl; [|apply zip_with_diag]. apply fabs_degenerate. }
  destruct Hm as [-> | ->]; [left; apply fdiv_zero_scale | now right].
Qed.

Lemma row_score_repeat (r : array) (n : nat) :
  0 < n -> r <> [] ->
  row_score (Array2 (List.length r) (repeat r n)) (zip_with fsub r r) = NaN.
Proof.
  intros Hn Hr. unfold row_score.
  pose proof (mad_repeat r Hn) as Hmad.
  destruct r as [|v r]; [congruence|].
  cbn [zip_with map np_sum fold_right].
  rewrite (fdiv_degenerate (fsub_diag v) Hmad). simpl fsq. simpl fadd.
  apply fmul_nan_r.
Qed.

(** *** Claim C9, counterexample *)

(** C9 (as stated, fails): two identical rows do not score 0; the scores
    are [nan]. *)
Lemma identical_rows_score_not_zero :
  ~ (exists scores,
        calc_mod_chisq (Array2 1 [[of_Z 1]; [of_Z 1]]) = Ok scores /\
        Forall (fun s => s = Fin 0%Qc) scores).
Proof.
  intros (scores & H & Hall).
  assert (E : calc_mod_chisq (Array2 1 [[of_Z 1]; [of_Z 1]]) = Ok [NaN; NaN])
    by (vm_compute; reflexivity).
  rewrite E in H. apply Decide.Ok_inj in H. subst scores.
  inversion Hall as [|? ? Hnan _]. discriminate.
Qed.

(** *** Claim C9, amended *)

(** C9 (amended): on a matrix whose rows are all identical (at least one
    row, at least one column) [calc_mod_chisq] gives every row the score
    [nan], not 0, and [modified_chisq_rejection] flags no row: every label
    is [+1]. *)
Theorem identical_rows_nan_scores_no_outlier (r : array) (n : nat) (threshold : Qc) :
  0 < n -> r <> [] ->
  calc_mod_chisq (Array2 (List.length r) (repeat r n)) = Ok (repeat NaN n) /\
  modified_chisq_rejection (Array2 (List.length r) (repeat r n)) threshold
    = Ok (repeat 1%Z n).
Proof.
  intros Hn Hr.
  assert (Hscores : calc_mod_chisq (Array2 (List.length r) (repeat r n)) = Ok (repeat NaN n)).
  { rewrite calc_mod_chisq_rows by (cbn [shape1]; destruct r; simpl; congruence).
    rewrite deviations_repeat by assumption.
    rewrite map_repeat. now rewrite row_score_repeat. }
  split; [exact Hscores|].
  unfold modified_chisq_rejection. rewrite Hscores. cbn [bind].
  rewrite !map_repeat. now rewrite fgtb_nan.
Qed.

Lemma identical_rows_nan_scores_no_outlier_witness :
  calc_mod_chisq (Array2 2 (repeat [of_Z 3; of_Z 7] 4)) = Ok (repeat NaN 4) /\
  modified_chisq_rejection (Array2 2 (repeat [of_Z 3; of_Z 7] 4)) default_threshold
    = Ok (repeat 1%Z 4).
Proof.
  apply (@identical_rows_nan_scores_no_outlier [of_Z 3; of_Z 7] 4 default_threshold).
  - lia.
  - discriminate.
Defined.

(** *** Claim C2 *)

(** C2 (as stated, fails): with two identical rows the MAD is zero, and
    [calc_mod_chisq] raises nothing: it returns [nan] scores, which
    [modified_chisq_rejection] labels as inliers. *)
Lemma identical_rows_no_error :
  mad (Array2 1 [[of_Z 1]; [of_Z 1]]) = Fin 0%Qc /\
  raises (calc_mod_chisq (Array2 1 [[of_Z 1]; [of_Z 1]])) = false /\
  calc_mod_chisq (Array2 1 [[of_Z 1]; [of_Z 1]]) = Ok [NaN; NaN] /\
  modified_chisq_rejection (Array2 1 [[of_Z 1]; [of_Z 1]]) default_threshold
    = Ok [1%Z; 1%Z].
Proof.
  repeat split; try (vm_compute; reflexivity). by_computation.
Qed.

Lemma row_score_zero_mad (data : ndarray2) (dev : array) :
  shape1 data <> 0 -> mad data = Fin 0%Qc -> dev <> [] ->
  nan_or_inf (row_score data dev).
Proof.
  intros Hn Hmad Hdev. unfold row_score. rewrite Hmad.
  apply fmul_inv_nat_nan_or_inf; [lia|].
  apply np_sum_nan_or_inf.
  - destruct dev; [congruence | discriminate].
  - rewrite map_map. apply Forall_map, Forall_forall. intros d _.
    apply fsq_nonfinite, fdiv_by_zero.
Qed.

(** C2 (amended): when the MAD is zero (and the matrix has a column),
    [calc_mod_chisq] raises no error; it divides by the zero MAD and returns,
    for every row, a score that is [nan] or [inf]. *)
Theorem zero_mad_divides_silently (data : ndarray2) :
  wf data -> shape1 data <> 0 -> mad data = Fin 0%Qc ->
  exists scores,
    calc_mod_chisq data = Ok scores /\
    List.length scores = shape0 data /\
    Forall nan_or_inf scores.
Proof.
  intros Hwf Hn Hmad.
  exists (map (row_score data) (rows (deviations data))).
  split; [now apply calc_mod_chisq_rows|]. split.
  - apply calc_mod_chisq_length. now apply calc_mod_chisq_rows.
  - apply Forall_map, Forall_forall. intros dev Hdev.
    apply row_score_zero_mad; auto.
    intros ->. apply (@deviations_row_length data [] Hwf) in Hdev.
    simpl in Hdev. congruence.
Qed.

Lemma zero_mad_divides_silently_witness :
  exists scores,
    calc_mod_chisq (Array2 1 [[of_Z 1]; [of_Z 1]; [of_Z 1]; [of_Z 5]]) = Ok scores /\
    List.length scores = 4 /\
    Forall nan_or_inf scores.
Proof.
  apply (@zero_mad_divides_silently (Array2 1 [[of_Z 1]; [of_Z 1]; [of_Z 1]; [of_Z 5]])).
  - repeat constructor.
  - discriminate.
  - by_computation.
Defined.

(** *** Claim C6 *)

Lemma zip_with_seq {A B C : Type} (f : A -> B -> C) (g : nat -> B) (d : A)
  (r : list A) (s : nat) :
  zip_with f r (map g (seq s (List.length r)))
  = map (fun j => f (nth (j - s) r d) (g j)) (seq s (List.length r)).
Proof.
  revert s; induction r as [|a r IH]; intros s; [reflexivity|].
  simpl. rewrite Nat.sub_diag. f_equal. rewrite IH.
  apply map_ext_in. intros j Hj. apply in_seq in Hj.
  destruct (j - s) as [|k] eqn:E; [lia|].
  replace (j - S s) with k by lia. reflexivity.
Qed.

(** A broadcast against a per-column vector, entry by entry. *)
Lemma broadcast_entries {B : Type} (f : npfloat -> B -> npfloat) (g : nat -> B)
  (r : array) (m : nat) :
  List.length r = m ->
  zip_with f r (map g (seq 0 m)) = map (fun j => f (nth j r NaN) (g j)) (seq 0 m).
Proof.
  intros <-. rewrite (zip_with_seq f g NaN r 0).
  apply map_ext. intros j. now rewrite Nat.sub_0_r.
Qed.

Lemma map_rows_seq {A B : Type} (F : A -> B) (d : A) (l : list A) :
  map (fun i => F (nth i l d)) (seq 0 (List.length l)) = map F l.
Proof.
  rewrite <- (map_map (fun i => nth i l d) F). now rewrite map_nth_seq.
Qed.

Lemma deviations_entries (data : ndarray2) (r : array) :
  List.length r = shape1 data ->
  zip_with fsub r (reduce_axis0 np_median data)
  = map (fun j => fsub (nth j r NaN) (Spec.column_median data j)) (Spec.grid data).
Proof.
  intros Hr. unfold reduce_axis0, columns. rewrite map_map.
  now apply (broadcast_entries fsub (fun j => np_median (column j data))).
Qed.

Lemma fmul_inv_scale (m : npfloat) :
  fmul m (Fin (1 / mad_scale)%Qc) = fdiv m (Fin mad_scale).
Proof.
  destruct m; reflexivity.
Qed.

Lemma scaled_mad_code (data : ndarray2) :
  wf data -> Spec.scaled_mad mad_scale data = mad data.
Proof.
  intros Hwf. unfold Spec.scaled_mad, mad. rewrite fmul_inv_scale. do 2 f_equal.
  unfold ravel, map_array2, deviations, broadcast_rows, Spec.scans, Spec.entry, shape0.
  cbn [rows]. rewrite flat_map_concat_map. f_equal.
  etransitivity;
    [exact (map_rows_seq
              (fun r => map (fun j => fabs (fsub (nth j r NaN) (Spec.column_median data j)))
                            (Spec.grid data)) [] (rows data))|].
  rewrite map_map. apply map_ext_in. intros r Hr.
  unfold wf in Hwf. rewrite Forall_forall in Hwf.
  rewrite deviations_entries by now apply Hwf.
  now rewrite map_map.
Qed.

Lemma fmul_inv_nat (n : nat) (s : npfloat) :
  0 < n -> fmul (fdiv (of_nat 1) (of_nat n)) s = fdiv s (of_nat n).
Proof.
  intros Hn. destruct (fdiv_one_nat Hn) as [-> Hsgn].
  unfold of_nat, of_Z.
  destruct s; unfold fmul, fdiv; cbn [fsign]; rewrite ?Hsgn, ?sgn_of_nat by assumption;
    try reflexivity.
  f_equal. unfold Qcdiv. apply Qcmult_comm.
Qed.

Lemma row_score_spec (data : ndarray2) (i : nat) :
  wf data -> shape1 data <> 0 -> i < shape0 data ->
  row_score data (zip_with fsub (nth i (rows data) []) (reduce_axis0 np_median data))
  = Spec.chisq_score mad_scale data i.
Proof.
  intros Hwf Hn Hi. unfold row_score, Spec.chisq_score, np_mean.
  rewrite fmul_inv_nat by lia.
  pose proof Hwf as Hlen. unfold wf in Hlen. rewrite Forall_forall in Hlen.
  rewrite deviations_entries by (apply Hlen, nth_In; exact Hi).
  rewrite !map_map, length_map. unfold Spec.grid at 3. rewrite length_seq.
  do 2 f_equal. apply map_ext. intros j.
  unfold Spec.robust_z, Spec.entry. now rewrite scaled_mad_code by exact Hwf.
Qed.

Lemma calc_mod_chisq_spec (data : ndarray2) :
  wf data -> shape1 data <> 0 ->
  calc_mod_chisq data = Ok (Spec.chisq_scores mad_scale data).
Proof.
  intros Hwf Hn. rewrite calc_mod_chisq_rows by assumption. f_equal.
  unfold Spec.chisq_scores, Spec.scans, deviations, broadcast_rows. cbn [rows].
  rewrite map_map.
  etransitivity;
    [symmetry;
     exact (map_rows_seq
              (fun r => row_score data (zip_with fsub r (reduce_axis0 np_median data)))
              [] (rows data))|].
  apply map_ext_in. intros i Hi. apply in_seq in Hi.
  apply row_score_spec; auto. lia.
Qed.

(** C6 (as stated, fails): the scale is not [1 / 0.6745]; on a matrix with
    non-zero MAD the scores differ from those the constant 0.6745 gives. *)
Lemma scale_is_not_0_6745 :
  mad (Array2 1 [[of_Z 0]; [of_Z 1]; [of_Z 3]]) <> Fin 0%Qc /\
  calc_mod_chisq (Array2 1 [[of_Z 0]; [of_Z 1]; [of_Z 3]])
  <> Ok (Spec.chisq_scores (qc 6745 10000) (Array2 1 [[of_Z 0]; [of_Z 1]; [of_Z 3]])).
Proof.
  split.
  - intros H. apply (f_equal (same (Fin 0%Qc))) in H. vm_compute in H. discriminate.
  - rewrite calc_mod_chisq_spec by (repeat constructor || discriminate).
    intros H. apply Decide.Ok_inj in H. revert H. apply Decide.same_array_neq.
    vm_compute. reflexivity.
Qed.

(** C6 (amended): the MAD of all [(value - column_median)] entries is scaled
    by [1 / 0.67449]; every row's score is the mean over the columns of the
    squared robust z-scores [(value - column_median) / MAD], and the label is
    [-1] exactly when the score exceeds the threshold, [+1] otherwise. *)
Theorem mod_chisq_scores_and_labels (data : ndarray2) (threshold : Qc) :
  wf data -> shape1 data <> 0 ->
  mad_scale = qc 67449 100000 /\
  calc_mod_chisq data = Ok (Spec.chisq_scores mad_scale data) /\
  modified_chisq_rejection data threshold
  = Ok (map (Spec.chisq_label threshold) (Spec.chisq_scores mad_scale data)).
Proof.
  intros Hwf Hn. split; [reflexivity|].
  pose proof (calc_mod_chisq_spec Hwf Hn) as Hs. split; [exact Hs|].
  unfold modified_chisq_rejection. rewrite Hs. cbn [bind].
  now rewrite map_map.
Qed.

Lemma mod_chisq_scores_and_labels_witness :
  mad_scale = qc 67449 100000 /\
  calc_mod_chisq (Array2 1 [[of_Z 0]; [of_Z 1]; [of_Z 3]])
  = Ok (Spec.chisq_scores mad_scale (Array2 1 [[of_Z 0]; [of_Z 1]; [of_Z 3]])) /\
  modified_chisq_rejection (Array2 1 [[of_Z 0]; [of_Z 1]; [of_Z 3]]) default_threshold
  = Ok (map (Spec.chisq_label default_threshold)
            (Spec.chisq_scores mad_scale (Array2 1 [[of_Z 0]; [of_Z 1]; [of_Z 3]]))).
Proof.
  apply (@mod_chisq_scores_and_labels (Array2 1 [[of_Z 0]; [of_Z 1]; [of_Z 3]])
           default_threshold).
  - repeat constructor.
  - discriminate.
Defined.

End ChiSquare.

(** ** CombinedClassifier *)

Module Combined.

Import Np Outliers ChiSquare.

Lemma length_positive (labels : list Z) : List.length (positive labels) = List.length labels.
Proof. apply length_map. Qed.

(** An estimator that finds every row an outlier: what it predicts cannot
    be mistaken for the fallback. *)
Definition all_outlier_estimator : Estimator :=
  {| fitted := unit;
     fit := fun _ => Ok tt;
     predict := fun _ data => Ok (repeat (-1)%Z (shape0 data)) |}.

(** *** Claim C3 *)

(** C3: whenever the chi-square pass leaves fewer than 2 rows, [MCS_into_LOF]
    returns the label [+1] for every row of the input and raises nothing,
    whatever the estimator is. *)
Theorem MCS_into_LOF_fallback (E : Estimator) (data : ndarray2) (threshold : Qc)
  (labels : list Z) :
  modified_chisq_rejection data threshold = Ok labels ->
  List.length (select (rows data) (positive labels)) < 2 ->
  MCS_into_LOF data threshold = Ok (repeat 1%Z (shape0 data)).
Proof.
  intros Hmcs Hfew. unfold MCS_into_LOF. rewrite Hmcs. cbn [bind].
  unfold getitem_mask. rewrite length_positive.
  rewrite (modified_chisq_rejection_length _ _ Hmcs).
  unfold shape0 at 1. rewrite Nat.eqb_refl. cbn [bind].
  unfold shape0 at 1. cbn [rows].
  apply Nat.ltb_lt in Hfew. now rewrite Hfew.
Qed.

Lemma MCS_into_LOF_fallback_witness :
  MCS_into_LOF (LocalOutlierFactor := all_outlier_estimator)
    (Array2 1 [[of_Z 0]; [of_Z 1]; [of_Z 5]]) (qc 1 10)
  = Ok [1%Z; 1%Z; 1%Z].
Proof.
  apply (@MCS_into_LOF_fallback all_outlier_estimator
           (Array2 1 [[of_Z 0]; [of_Z 1]; [of_Z 5]]) (qc 1 10) [(-1)%Z; 1%Z; (-1)%Z]).
  - vm_compute. reflexivity.
  - vm_compute. lia.
Defined.

End Combined.

(** ** Aggregator *)

Module Aggregator.

Import Np Analysis Outliers.

(** The call of [standardize_energy_grid] in [outlier_rejection] passes the
    keyword [master_idx], which the function does not declare. *)
Lemma standardize_call_does_not_bind :
  binds standardize_energy_grid_sig 1 ["master_idx"; "energy_key"]%string = false.
Proof. reflexivity. Qed.

(** The call of [prenormalize_data] in the loop passes two positional
    arguments to a function of one parameter. *)
Lemma prenormalize_call_does_not_bind :
  binds prenormalize_data_sig 2 [] = false.
Proof. reflexivity. Qed.

Definition scan (energy mut muf mur : list Z) : DataFrame :=
  [("energy", map of_Z energy); ("mut", map of_Z mut);
   ("muf", map of_Z muf); ("mur", map of_Z mur)]%string.

(** *** Claim C8 *)

(** C8 (the code fails it): on a well-formed group of two scans
    [outlier_rejection] raises [TypeError] at its first call and produces no
    averaged curve for any channel or method. *)
Theorem outlier_rejection_no_average :
  outlier_rejection (LocalOutlierFactor := all_inlier_estimator)
    [scan [1; 2; 3]%Z [5; 6; 7]%Z [1; 1; 2]%Z [0; 1; 0]%Z;
     scan [1; 2; 3]%Z [5; 6; 8]%Z [1; 2; 2]%Z [0; 1; 1]%Z]
    ["a"; "b"]%string default_channels 0 "energy"%string
  = Raise TypeError.
Proof. reflexivity. Qed.

(** *** Claim C10 *)

(** C10 (the code fails it): [outlier_rejection] raises [TypeError] on every
    input, with every estimator, so that no inlier or outlier list is ever
    reported. *)
Theorem outlier_rejection_type_error (E : Estimator) (scangroup : list DataFrame)
  (uids channels : list string) (master_idx : nat) (energy_key : string) :
  outlier_rejection scangroup uids channels master_idx energy_key = Raise TypeError.
Proof. reflexivity. Qed.

End Aggregator.

(** ** RobustStatistics *)

Module Robust.

Import Np NpFacts Analysis Stats.

Lemma insert_sorted_length (x : npfloat) (l : array) :
  List.length (insert_sorted x l) = S (List.length l).
Proof.
  induction l as [|y l IH]; [reflexivity|].
  simpl. destruct (sort_leb x y); simpl; auto.
Qed.

Lemma np_sort_length (l : array) : List.length (np_sort l) = List.length l.
Proof.
  induction l as [|x l IH]; [reflexivity|].
  change (np_sort (x :: l)) with (insert_sorted x (np_sort l)).
  now rewrite insert_sorted_length, IH.
Qed.

Lemma Forall2_map_right {A B : Type} (R : A -> B -> Prop) (f : A -> B) (l : list A) :
  (forall a, In a l -> R a (f a)) -> Forall2 R l (map f l).
Proof.
  induction l as [|a l IH]; intros H; [constructor|].
  cbn [map]. constructor; [apply H; now left|].
  apply IH. intros b Hb. apply H. now right.
Qed.

Lemma int_of_nonneg (q : Qc) : (0 <= q)%Qc -> int_of q = Qfloor q.
Proof.
  intros H. unfold int_of, Qfloor. destruct q as [[n d] Hq]; simpl in *.
  apply Z.quot_div_nonneg; [|lia].
  unfold Qcle, Qle in H; simpl in H. lia.
Qed.

Lemma qc_of_nat_nonneg (n : nat) : (0 <= qc (Z.of_nat n) 1)%Qc.
Proof.
  unfold qc, Qcle, Q2Qc, this. rewrite !Qred_correct. unfold Qle; simpl. lia.
Qed.

Lemma Qcmult_nonneg (p q : Qc) : (0 <= p)%Qc -> (0 <= q)%Qc -> (0 <= p * q)%Qc.
Proof.
  intros Hp Hq. rewrite <- (Qcmult_0_l q). now apply Qcmult_le_compat_r.
Qed.

Lemma Qfloor_nonneg (q : Qc) : (0 <= q)%Qc -> (0 <= Qfloor q)%Z.
Proof.
  intros H. change 0%Z with (Qfloor 0). apply Qfloor_resp_le. exact H.
Qed.

Lemma nth_map_rows (cols : list array) (i j : nat) :
  nth j (map (fun c => nth i c NaN) cols) NaN = nth i (nth j cols []) NaN.
Proof.
  revert j; induction cols as [|c cols IH]; intros [|j]; simpl; auto;
    now destruct i.
Qed.

(** A matrix built from columns has those columns. *)
Lemma columns_of_columns (n : nat) (cols : list array) :
  Forall (fun c => List.length c = n) cols -> columns (of_columns n cols) = cols.
Proof.
  intros H. unfold columns, of_columns, column. cbn [shape1 rows].
  transitivity (map (fun j => nth j cols []) (seq 0 (List.length cols)));
    [|apply map_nth_seq].
  apply map_ext_in. intros j Hj. apply in_seq in Hj.
  rewrite map_map.
  rewrite Forall_forall in H.
  rewrite <- (H (nth j cols [])) by (apply nth_In; lia).
  transitivity (map (fun i => nth i (nth j cols []) NaN)
                    (seq 0 (List.length (nth j cols []))));
    [|apply map_nth_seq].
  apply map_ext. intros i. apply nth_map_rows.
Qed.

Lemma column_length (a : ndarray2) (j : nat) : List.length (column j a) = shape0 a.
Proof. unfold column, shape0. apply length_map. Qed.

Lemma slice_length (lo hi : nat) (l : array) :
  hi <= List.length l -> List.length (slice lo hi l) = hi - lo.
Proof. intros H. unfold slice. rewrite length_firstn, length_skipn. lia. Qed.

Definition skewed : ndarray2 :=
  Array2 1 [[of_Z 0]; [of_Z 1]; [of_Z 2]; [of_Z 3]; [of_Z 10]].

(** *** Claim C1 *)

(** C1 (as stated, fails): with the default [trim_fraction = 0.2] on five
    values, discarding [trim_fraction / 2] at each end keeps all five and
    flags no row, whereas [check_for_outliers] flags the last row. *)
Lemma trim_is_not_half_fraction :
  check_for_outliers skewed default_trim_fraction default_check_threshold
  <> Ok (Spec.deviation_scores (default_trim_fraction / qc 2 1) skewed,
         Spec.exceeds default_check_threshold
           (Spec.deviation_scores (default_trim_fraction / qc 2 1) skewed)).
Proof.
  intros H.
  apply (f_equal (fun r => match r with Ok (_, mask) => mask | Raise _ => [] end)) in H.
  vm_compute in H. discriminate.
Qed.

(** The float64 code: what [trimboth] keeps of every column when the
    rounded product of the proportion and the number of rows truncates to
    [k]. *)
Section WithArith.

Context {float64 : Rounded.Arith}.

Lemma rounded_trimboth_kept (a : ndarray2) (p : npfloat) (q : Qc) :
  Rounded.mul p (of_nat (shape0 a)) = Fin q ->
  (0 <= int_of q)%Z ->
  2 * Z.to_nat (int_of q) < shape0 a ->
  exists trim_data,
    Rounded.trimboth a p = Ok trim_data /\
    shape1 trim_data = shape1 a /\
    (shape1 a <> 0 -> shape0 trim_data = shape0 a - 2 * Z.to_nat (int_of q)) /\
    Forall2 (Spec.kept_of (Z.to_nat (int_of q))) (columns a) (columns trim_data).
Proof.
  intros Hq H0 Hk. unfold Rounded.trimboth.
  destruct (size a =? 0) eqn:Hsize.
  - exists a. apply Nat.eqb_eq in Hsize. unfold size in Hsize.
    assert (H1 : shape1 a = 0) by nia.
    repeat split; [intros H; contradiction|].
    unfold columns. rewrite H1. constructor.
  - rewrite Hq. cbn [Rounded.int_float bind].
    set (k := Z.to_nat (int_of q)) in *.
    destruct (Z.geb_spec (int_of q) (Z.of_nat (shape0 a) - int_of q)); [lia|].
    destruct (Z.ltb_spec (int_of q) 0); [lia|].
    replace (Z.to_nat (Z.of_nat (shape0 a) - int_of q)) with (shape0 a - k) by lia.
    set (cols := map (fun c => slice k (shape0 a - k)
                                 (Rounded.partition k (shape0 a - k - 1) c))
                     (columns a)).
    assert (Hkept : Forall2 (Spec.kept_of k) (columns a) cols).
    { apply Forall2_map_right. intros c Hc.
      apply in_map_iff in Hc as (j & <- & _).
      unfold Spec.kept_of. rewrite column_length.
      pose proof (@Rounded.partition_slice _ k (shape0 a - k - 1) (column j a)
                    ltac:(lia) ltac:(rewrite column_length; lia)) as P.
      replace (S (shape0 a - k - 1)) with (shape0 a - k) in P by lia.
      exact P. }
    assert (Hlen : Forall (fun c => List.length c = shape0 a - k - k) cols).
    { apply Forall_forall. intros c Hc.
      apply in_map_iff in Hc as (col & <- & Hcol).
      apply in_map_iff in Hcol as (j & <- & _).
      pose proof (@Rounded.partition_slice _ k (shape0 a - k - 1) (column j a)
                    ltac:(lia) ltac:(rewrite column_length; lia)) as P.
      replace (S (shape0 a - k - 1)) with (shape0 a - k) in P by lia.
      rewrite (Permutation_length P).
      rewrite slice_length; [lia|]. rewrite np_sort_length, column_length. lia. }
    eexists. split; [reflexivity|]. split; [|split].
    + unfold of_columns. cbn [shape1]. unfold cols, columns.
      now rewrite !length_map, length_seq.
    + intros _. unfold shape0 at 1, of_columns. cbn [rows].
      rewrite length_map, length_seq. lia.
    + rewrite (columns_of_columns Hlen). exact Hkept.
Qed.

Lemma zip_with_fused (r : array) (cs : list array) :
  map Rounded.square
      (zip_with Rounded.div (zip_with Rounded.sub r (map Rounded.mean cs))
         (map Rounded.std cs))
  = zip_with (fun v c => Rounded.square (Rounded.div (Rounded.sub v (Rounded.mean c))
                                           (Rounded.std c))) r cs.
Proof.
  revert cs; induction r as [|v r IH]; intros [|c cs]; cbn; try reflexivity.
  now rewrite IH.
Qed.

(** C1 (amended): whatever the rounding of the float64 operations, when the
    product of [trim_fraction] and the number [n] of rows, as the code
    rounds it, truncates to [k] with [0 <= k] and [2 * k < n], the trimmed
    statistics of a column are the mean and the standard deviation of its
    values without the [k] smallest and the [k] largest, that is
    [trim_fraction] of them at each end and not [trim_fraction / 2]; every
    row's score is the sum over the columns of
    [((value - trimmed_mean) / trimmed_std) ** 2] over the number of columns,
    and the mask marks a row exactly when its score exceeds the threshold. *)
Theorem check_for_outliers_trims_whole_fraction
  (all_data : ndarray2) (trim_fraction : npfloat) (threshold q : Qc) :
  Rounded.mul trim_fraction (of_nat (shape0 all_data)) = Fin q ->
  (0 <= int_of q)%Z ->
  2 * Z.to_nat (int_of q) < shape0 all_data ->
  exists kept : list array,
    Forall2 (Spec.kept_of (Z.to_nat (int_of q))) (columns all_data) kept /\
    Rounded.check_for_outliers all_data trim_fraction threshold
    = Ok (map (Spec.score_against kept (shape1 all_data)) (rows all_data),
          map (fun row => fgtb (Spec.score_against kept (shape1 all_data) row)
                            (Fin threshold))
              (rows all_data)).
Proof.
  intros Hq H0 Hk.
  destruct (rounded_trimboth_kept all_data trim_fraction Hq H0 Hk)
    as (trim_data & Htrim & _ & _ & Hkept).
  exists (columns trim_data). split; [exact Hkept|].
  unfold Rounded.check_for_outliers. rewrite Htrim. cbn [bind].
  unfold reduce_axis0, reduce_axis1, map_array2, broadcast_rows. cbn [rows shape1].
  rewrite !map_map.
  assert (Hs : forall row,
             Rounded.div
               (Rounded.sum
                  (map Rounded.square
                     (zip_with Rounded.div
                        (zip_with Rounded.sub row (map Rounded.mean (columns trim_data)))
                        (map Rounded.std (columns trim_data)))))
               (of_nat (shape1 all_data))
             = Spec.score_against (columns trim_data) (shape1 all_data) row).
  { intros row. unfold Spec.score_against. now rewrite zip_with_fused. }
  f_equal. f_equal; apply map_ext; intros row; now rewrite Hs.
Qed.

End WithArith.

(** With exact operations the interface gives the trimming of [Stats]. *)
Lemma trimboth_exact (a : ndarray2) (p : Qc) :
  Rounded.trimboth (float64 := Rounded.exact) a (Fin p) = Stats.trimboth a p.
Proof.
  unfold Rounded.trimboth, Stats.trimboth, trim_cuts.
  destruct (size a =? 0); [reflexivity|].
  cbn [Rounded.mul Rounded.exact fmul of_nat of_Z Rounded.int_float bind].
  destruct (_ >=? _)%Z; [reflexivity|].
  destruct (_ <? _)%Z; reflexivity.
Qed.

Lemma check_for_outliers_trims_whole_fraction_witness :
  exists kept : list array,
    Forall2 (Spec.kept_of 1) (columns skewed) kept /\
    Rounded.check_for_outliers (float64 := Rounded.exact) skewed
      (Fin default_trim_fraction) default_check_threshold
    = Ok (map (Spec.score_against (float64 := Rounded.exact) kept 1) (rows skewed),
          map (fun row => fgtb (Spec.score_against (float64 := Rounded.exact) kept 1 row)
                            (Fin default_check_threshold))
              (rows skewed)).
Proof.
  apply (@check_for_outliers_trims_whole_fraction Rounded.exact skewed
           (Fin default_trim_fraction) default_check_threshold (qc 1 1)).
  - by_computation.
  - vm_compute. discriminate.
  - vm_compute. lia.
Defined.

End Robust.

(** ** The order of float values and [np.interp] on its own sample points *)

Module Interp.

Import Np NpFacts Degenerate.

Lemma fltb_trans (a b c : npfloat) :
  fltb a b = true -> fltb b c = true -> fltb a c = true.
Proof.
  destruct a as [p| | |], b as [q| | |], c as [r| | |]; cbn [fltb];
    try discriminate; auto.
  destruct (p ?= q)%Qc eqn:Hpq; try discriminate.
  destruct (q ?= r)%Qc eqn:Hqr; try discriminate.
  intros _ _. apply Qclt_alt in Hpq, Hqr.
  assert (H : (p < r)%Qc) by (eapply Qclt_trans; eassumption).
  apply Qclt_alt in H. change ((p ?= r)%Qc = Lt) in H. now rewrite H.
Qed.

Lemma fltb_asym (a b : npfloat) : fltb a b = true -> fltb b a = false.
Proof.
  intros H. destruct (fltb b a) eqn:E; [|reflexivity].
  pose proof (fltb_trans _ _ _ H E) as Haa. rewrite fltb_irrefl in Haa. discriminate.
Qed.

Lemma fltb_not_nan (a b : npfloat) :
  fltb a b = true -> isnan a = false /\ isnan b = false.
Proof. destruct a, b; simpl; try discriminate; auto. Qed.

Lemma feqb_refl (a : npfloat) : isnan a = false -> feqb a a = true.
Proof. destruct a; simpl; try discriminate; auto using Qc_eq_bool_refl. Qed.

Lemma fgeb_of_lt (a x : npfloat) : fltb a x = true -> fgeb x a = true.
Proof. intros H. unfold fgeb. now rewrite H. Qed.

Lemma feqb_lt (x b : npfloat) : fltb x b = true -> feqb x b = false.
Proof.
  destruct x as [p| | |], b as [q| | |]; cbn [fltb feqb]; try discriminate; auto.
  destruct (p ?= q)%Qc eqn:E; try discriminate. intros _.
  destruct (Qc_eq_bool p q) eqn:Eb; [|reflexivity].
  apply Qc_eq_bool_correct in Eb. apply Qceq_alt in Eb. congruence.
Qed.

Lemma fgeb_below (x b : npfloat) : fltb x b = true -> fgeb x b = false.
Proof.
  intros H. unfold fgeb. now rewrite (fltb_asym _ _ H), (feqb_lt _ _ H).
Qed.

Lemma fgeb_refl (x : npfloat) : isnan x = false -> fgeb x x = true.
Proof. intros H. unfold fgeb. rewrite (feqb_refl _ H). apply orb_true_r. Qed.

(** In a strictly increasing sequence every later value is above. *)
Lemma increasing_cons (a : npfloat) (l : array) :
  Spec.increasing (a :: l) = true ->
  Forall (fun b => fltb a b = true) l /\ Spec.increasing l = true.
Proof.
  revert a; induction l as [|b l IH]; intros a H; [split; [constructor | reflexivity]|].
  cbn [Spec.increasing] in H. apply andb_prop in H as [Hab Hl].
  split; [|exact Hl].
  constructor; [exact Hab|].
  destruct (IH b Hl) as [Hb _].
  eapply Forall_impl; [|exact Hb]. intros c Hc. eapply fltb_trans; eassumption.
Qed.

Lemma increasing_split (pre post : array) (x : npfloat) :
  Spec.increasing (pre ++ x :: post) = true ->
  Forall (fun a => fltb a x = true) pre /\ Forall (fun b => fltb x b = true) post.
Proof.
  induction pre as [|a pre IH]; simpl app; intros H.
  - split; [constructor|]. now apply increasing_cons.
  - apply increasing_cons in H as [Ha Hl]. destruct (IH Hl) as [Hpre Hpost].
    split; [|exact Hpost]. constructor; [|exact Hpre].
    rewrite Forall_forall in Ha. apply Ha. apply in_elt.
Qed.

Lemma search_from_pre (x : npfloat) (l1 l2 : array) (i : nat) :
  Forall (fun a => fgeb x a = true) l1 ->
  search_from x (l1 ++ l2) i = search_from x l2 (i + List.length l1).
Proof.
  revert i; induction l1 as [|a l1 IH]; intros i H; simpl.
  - now rewrite Nat.add_0_r.
  - inversion H as [|? ? Ha Hl]; subst. rewrite Ha, IH by assumption.
    f_equal. lia.
Qed.

Lemma search_from_stop (x : npfloat) (l : array) (i : nat) :
  Forall (fun b => fltb x b = true) l -> search_from x l i = i.
Proof.
  intros H. destruct l as [|b l]; [reflexivity|].
  inversion H as [|? ? Hb _]; subst. simpl. now rewrite (fgeb_below _ _ Hb).
Qed.

Lemma linear_search_own_point (pre post : array) (x : npfloat) :
  isnan x = false ->
  Spec.increasing (pre ++ x :: post) = true ->
  linear_search x (pre ++ x :: post) = List.length pre.
Proof.
  intros Hx H. destruct (increasing_split _ _ _ H) as [Hpre Hpost].
  unfold linear_search. destruct pre as [|a pre]; cbn [app tl List.length].
  - now rewrite search_from_stop.
  - inversion Hpre as [|? ? _ Hpre']; subst.
    rewrite search_from_pre
      by (eapply Forall_impl; [|exact Hpre']; intros; now apply fgeb_of_lt).
    cbn [search_from]. rewrite (fgeb_refl _ Hx).
    rewrite search_from_stop by assumption. lia.
Qed.

Lemma last_app_cons (pre post : array) (x : npfloat) :
  last (pre ++ x :: post) NaN = last (x :: post) NaN.
Proof.
  induction pre as [|a pre IH]; [reflexivity|].
  cbn [app]. rewrite <- IH. destruct (pre ++ x :: post) eqn:E; [|reflexivity].
  destruct pre; discriminate.
Qed.

Lemma last_In_or (post : array) (x : npfloat) :
  last (x :: post) NaN = x \/ In (last (x :: post) NaN) post.
Proof.
  revert x; induction post as [|b post IH]; intros x; [now left|].
  right. change (last (x :: b :: post) NaN) with (last (b :: post) NaN).
  destruct (IH b) as [-> | Hin]; [now left | now right].
Qed.

(** [np.interp] at one of its own sample points returns the value given
    there. *)
Lemma interp_at_own_point (pre post fp : array) (x : npfloat) :
  Spec.increasing (pre ++ x :: post) = true ->
  interp_at (pre ++ x :: post) fp x = nth (List.length pre) fp NaN.
Proof.
  intros H. destruct (increasing_split _ _ _ H) as [Hpre Hpost].
  unfold interp_at.
  destruct (List.length (pre ++ x :: post) =? 1) eqn:Hone.
  - apply Nat.eqb_eq in Hone. rewrite length_app in Hone. simpl in Hone.
    destruct pre; [|simpl in Hone; lia]. destruct post; [|simpl in Hone; lia].
    simpl. unfold fgtb. rewrite fltb_irrefl. now destruct fp.
  - apply Nat.eqb_neq in Hone.
    assert (Hx : isnan x = false).
    { destruct pre as [|a pre].
      - destruct post as [|b post]; [simpl in Hone; lia|].
        inversion Hpost as [|? ? Hb _]; subst. exact (proj1 (fltb_not_nan _ _ Hb)).
      - inversion Hpre as [|? ? Ha _]; subst. exact (proj2 (fltb_not_nan _ _ Ha)). }
    rewrite Hx.
    assert (Hlast : fgtb x (last (pre ++ x :: post) NaN) = false).
    { unfold fgtb. rewrite last_app_cons.
      destruct (last_In_or post x) as [-> | Hin]; [apply fltb_irrefl|].
      rewrite Forall_forall in Hpost. apply fltb_asym. now apply Hpost. }
    rewrite Hlast.
    assert (Hhd : fltb x (hd NaN (pre ++ x :: post)) = false).
    { destruct pre as [|a pre]; [apply fltb_irrefl|].
      inversion Hpre; subst. simpl. now apply fltb_asym. }
    rewrite Hhd.
    rewrite (linear_search_own_point _ _ _ Hx H).
    rewrite nth_middle, (feqb_refl _ Hx).
    now destruct (List.length pre =? List.length (pre ++ x :: post) - 1).
Qed.

(** Interpolating values given on an increasing grid onto that same grid
    returns the values. *)
Lemma interp_own_grid (xp fp : array) :
  Spec.increasing xp = true ->
  List.length fp = List.length xp ->
  map (interp_at xp fp) xp = fp.
Proof.
  intros Hinc Hlen.
  apply (nth_ext _ _ (interp_at xp fp NaN) NaN); [now rewrite length_map|].
  intros k Hk. rewrite length_map in Hk. rewrite map_nth.
  destruct (nth_split xp NaN Hk) as (pre & post & Hsplit & Hpre).
  rewrite Hsplit at 1. rewrite interp_at_own_point by now rewrite <- Hsplit.
  now rewrite Hpre.
Qed.

Lemma np_interp_own_grid (xp fp : array) :
  xp <> [] ->
  Spec.increasing xp = true ->
  List.length fp = List.length xp ->
  np_interp xp xp fp = Ok fp.
Proof.
  intros Hne Hinc Hlen. unfold np_interp.
  destruct xp as [|x xp]; [congruence|]. cbn [List.length Nat.eqb].
  rewrite Hlen. cbn [List.length]. rewrite Nat.eqb_refl. cbn [negb].
  f_equal. now apply interp_own_grid.
Qed.

End Interp.

(** ** GridAligner *)

Module Grid.

Import Np Analysis Interp.

Lemma getitem_In (df : DataFrame) (c : string) :
  In c (df_columns df) -> exists v, getitem df c = Ok v /\ In (c, v) df.
Proof.
  induction df as [|[k w] df IH]; simpl; [contradiction|].
  intros H. destruct (String.eqb k c) eqn:E.
  - apply String.eqb_eq in E. subst. exists w. auto.
  - apply String.eqb_neq in E. destruct H as [H | H]; [contradiction|].
    destruct (IH H) as (v & Hv & Hin). exists v. auto.
Qed.

Lemma getitem_Ok_In (df : DataFrame) (c : string) (v : array) :
  getitem df c = Ok v -> In (c, v) df.
Proof.
  induction df as [|[k w] df IH]; simpl; [discriminate|].
  destruct (String.eqb k c) eqn:E.
  - apply String.eqb_eq in E. intros H. apply Decide.Ok_inj in H. subst. now left.
  - intros H. right. now apply IH.
Qed.

Lemma getitem_NoDup (df : DataFrame) (c : string) (v : array) :
  NoDup (df_columns df) -> In (c, v) df -> getitem df c = Ok v.
Proof.
  induction df as [|[k w] df IH]; simpl; [contradiction|].
  intros Hnd Hin. inversion Hnd as [|? ? Hk Hnd']; subst.
  destruct Hin as [Heq | Hin].
  - inversion Heq; subst. now rewrite String.eqb_refl.
  - destruct (String.eqb k c) eqn:E.
    + apply String.eqb_eq in E. subst. exfalso. apply Hk.
      unfold df_columns. apply in_map_iff. now exists (c, v).
    + now apply IH.
Qed.

Definition not_key (energy_key : string) (column : string) : bool :=
  negb (String.eqb column energy_key).

(** The channels of a scan: its columns but the coordinate. *)
Definition channels (energy_key : string) (df : DataFrame) : list string :=
  filter (not_key energy_key) (df_columns df).

(** A channel of [df] interpolated on the master grid. *)
Definition on_master (energy_key : string) (energy_master : array) (df : DataFrame)
  (column : string) : array :=
  match getitem df energy_key, getitem df column with
  | Ok xp, Ok fp => map (interp_at xp fp) energy_master
  | _, _ => []
  end.

(** What [resample] returns when it returns. *)
Definition resampled (energy_key : string) (energy_master : array) (df : DataFrame)
  : DataFrame :=
  (energy_key, energy_master)
    :: map (fun c => (c, on_master energy_key energy_master df c))
           (channels energy_key df).

(** A scan with a non-empty coordinate sequence. *)
Definition has_grid (energy_key : string) (df : DataFrame) : Prop :=
  exists xp, getitem df energy_key = Ok xp /\ xp <> [].

Lemma resample_ok (energy_key : string) (energy_master : array) (df : DataFrame) :
  wf_frame df -> has_grid energy_key df ->
  resample energy_key energy_master df = Ok (resampled energy_key energy_master df).
Proof.
  intros [_ Hlen] (xp & Hxp & Hne). unfold resample.
  rewrite (mapM_ok _ (fun c => (c, on_master energy_key energy_master df c))).
  - reflexivity.
  - intros c Hc. apply filter_In in Hc as [Hc _].
    destruct (getitem_In df c Hc) as (fp & Hfp & Hin).
    unfold on_master. rewrite Hxp, Hfp. cbn [bind].
    unfold np_interp.
    destruct (List.length xp =? 0) eqn:E0.
    { apply Nat.eqb_eq in E0. destruct xp; [congruence | discriminate]. }
    rewrite (Hlen c fp energy_key xp Hin (getitem_Ok_In _ _ Hxp)).
    rewrite Nat.eqb_refl. reflexivity.
Qed.

Lemma standardize_ok (df0 : DataFrame) (rest : list DataFrame) (energy_key : string)
  (energy_master : array) :
  getitem df0 energy_key = Ok energy_master ->
  Forall wf_frame rest -> Forall (has_grid energy_key) rest ->
  standardize_energy_grid (df0 :: rest) energy_key
  = Ok (df0 :: map (resampled energy_key energy_master) rest).
Proof.
  intros Hm Hwf Hgrid. unfold standardize_energy_grid. rewrite Hm. cbn [bind].
  rewrite (mapM_ok _ (resampled energy_key energy_master)); [reflexivity|].
  intros df Hdf. rewrite Forall_forall in Hwf, Hgrid.
  apply resample_ok; auto.
Qed.

Lemma filter_all {A : Type} (p : A -> bool) (l : list A) :
  Forall (fun a => p a = true) l -> filter p l = l.
Proof.
  induction 1 as [|a l Ha _ IH]; simpl; [reflexivity|]. now rewrite Ha, IH.
Qed.

Lemma channels_resampled (energy_key : string) (energy_master : array) (df : DataFrame) :
  channels energy_key (resampled energy_key energy_master df) = channels energy_key df.
Proof.
  unfold channels at 1, resampled, df_columns. cbn [map fst filter].
  unfold not_key at 1. rewrite String.eqb_refl. cbn [negb].
  rewrite map_map. cbn [fst]. rewrite map_id.
  apply filter_all. apply Forall_forall. intros c Hc.
  now apply filter_In in Hc.
Qed.

Lemma on_master_length (energy_key : string) (energy_master : array) (df : DataFrame)
  (c : string) :
  has_grid energy_key df -> In c (df_columns df) ->
  List.length (on_master energy_key energy_master df c) = List.length energy_master.
Proof.
  intros (xp & Hxp & _) Hc. destruct (getitem_In df c Hc) as (fp & Hfp & _).
  unfold on_master. rewrite Hxp, Hfp. apply length_map.
Qed.

(** Resampling a resampled scan on the same increasing grid changes
    nothing. *)
Lemma resample_resampled (energy_key : string) (energy_master : array) (df : DataFrame) :
  wf_frame df -> has_grid energy_key df ->
  energy_master <> [] -> Spec.increasing energy_master = true ->
  resample energy_key energy_master (resampled energy_key energy_master df)
  = Ok (resampled energy_key energy_master df).
Proof.
  intros [Hnd _] Hgrid Hne Hinc. unfold resample.
  fold (not_key energy_key).
  fold (channels energy_key (resampled energy_key energy_master df)).
  rewrite channels_resampled.
  rewrite (mapM_ok _ (fun c => (c, on_master energy_key energy_master df c)));
    [reflexivity|].
  intros c Hc.
  assert (Hkey : getitem (resampled energy_key energy_master df) energy_key
                 = Ok energy_master)
    by (unfold resampled; cbn [getitem]; now rewrite String.eqb_refl).
  assert (Hcol : getitem (resampled energy_key energy_master df) c
                 = Ok (on_master energy_key energy_master df c)).
  { unfold resampled. cbn [getitem].
    pose proof Hc as Hc'. apply filter_In in Hc' as [_ Hnk]. unfold not_key in Hnk.
    rewrite String.eqb_sym. destruct (String.eqb c energy_key); [discriminate|].
    apply getitem_NoDup.
    - unfold df_columns. rewrite map_map. cbn [fst]. rewrite map_id.
      now apply NoDup_filter.
    - apply in_map_iff. exists c. split; [reflexivity | exact Hc]. }
  rewrite Hkey, Hcol. cbn [bind].
  rewrite np_interp_own_grid; auto.
  apply on_master_length; auto. now apply filter_In in Hc.
Qed.

Definition frame (energy mu : list Z) : DataFrame :=
  [("energy", map of_Z energy); ("mu", map of_Z mu)]%string.

(** *** Claim C5 *)

(** C5 (as stated, fails): a group holding a scan with a single point, and
    a group whose only scan has a decreasing coordinate sequence, are both
    aligned without any error. *)
Lemma invalid_grids_are_accepted :
  Spec.invalid_grid (map of_Z [5%Z]) = true /\
  raises (standardize_energy_grid [frame [1; 2; 3]%Z [10; 20; 30]%Z; frame [5]%Z [7]%Z]
            "energy"%string) = false /\
  Spec.invalid_grid (map of_Z [3; 1]%Z) = true /\
  raises (standardize_energy_grid [frame [3; 1]%Z [10; 20]%Z] "energy"%string) = false.
Proof. repeat split; vm_compute; reflexivity. Qed.

(** C5 (amended): [standardize_energy_grid] does not validate coordinate
    sequences.  For every group whose first scan has the coordinate column
    and whose other scans are well-formed frames with a non-empty coordinate
    sequence it returns a result, one scan per input scan, whether or not the
    sequences are strictly increasing or have two points. *)
Theorem alignment_does_not_validate_grids
  (df0 : DataFrame) (rest : list DataFrame) (energy_key : string) (energy_master : array) :
  getitem df0 energy_key = Ok energy_master ->
  Forall wf_frame rest -> Forall (has_grid energy_key) rest ->
  exists dfs_out,
    standardize_energy_grid (df0 :: rest) energy_key = Ok dfs_out /\
    List.length dfs_out = List.length (df0 :: rest).
Proof.
  intros Hm Hwf Hgrid.
  exists (df0 :: map (resampled energy_key energy_master) rest).
  split; [apply standardize_ok; assumption|].
  cbn [List.length]. now rewrite length_map.
Qed.

Lemma wf_frame_two (k1 k2 : string) (v1 v2 : array) :
  k1 <> k2 -> List.length v1 = List.length v2 -> wf_frame [(k1, v1); (k2, v2)].
Proof.
  intros Hk Hl. split.
  - simpl. constructor; [intros [H | []]; congruence|]. constructor; [intros []|constructor].
  - intros k v k' v' [H | [H | []]] [H' | [H' | []]];
      inversion H; inversion H'; subst; congruence.
Qed.

Lemma alignment_does_not_validate_grids_witness :
  exists dfs_out,
    standardize_energy_grid [frame [1; 2; 3]%Z [10; 20; 30]%Z; frame [2; 1]%Z [7; 8]%Z]
      "energy"%string = Ok dfs_out /\
    List.length dfs_out = 2.
Proof.
  apply (@alignment_does_not_validate_grids (frame [1; 2; 3]%Z [10; 20; 30]%Z)
           [frame [2; 1]%Z [7; 8]%Z] "energy"%string (map of_Z [1; 2; 3]%Z)).
  - reflexivity.
  - constructor; [|constructor]. apply wf_frame_two; [discriminate | reflexivity].
  - constructor; [|constructor]. eexists. split; [reflexivity | discriminate].
Defined.

(** *** Claim C4 *)

Definition once_aligned : list DataFrame :=
  [frame [3; 2; 1]%Z [1; 2; 3]%Z; frame [3; 2; 1]%Z [30; 20; 10]%Z].

Definition twice_aligned : list DataFrame :=
  [frame [3; 2; 1]%Z [1; 2; 3]%Z; frame [3; 2; 1]%Z [10; 10; 30]%Z].

(** C4 (as stated, fails): idempotence needs a valid master grid.  A group
    whose master scan has a decreasing coordinate sequence is aligned
    without error, and aligning the result again changes it; with an empty
    master sequence the second alignment raises [ValueError]. *)
Lemma realignment_is_not_a_no_op :
  standardize_energy_grid [frame [3; 2; 1]%Z [1; 2; 3]%Z; frame [1; 2; 3]%Z [10; 20; 30]%Z]
    "energy"%string = Ok once_aligned
  /\ standardize_energy_grid once_aligned "energy"%string = Ok twice_aligned
  /\ once_aligned <> twice_aligned
  /\ standardize_energy_grid [frame [] []; frame [1]%Z [5]%Z] "energy"%string
     = Ok [frame [] []; frame [] []]
  /\ standardize_energy_grid [frame [] []; frame [] []] "energy"%string
     = Raise ValueError.
Proof.
  split; [vm_compute; reflexivity|]. split; [vm_compute; reflexivity|].
  split; [|split; vm_compute; reflexivity].
  intros H.
  apply (f_equal (fun g => match g with
                           | [_; [_; (_, Fin q :: _)]] => Qnum (this q)
                           | _ => 0%Z
                           end)) in H.
  vm_compute in H. discriminate.
Qed.

(** What alignment makes of a scan [df]: the master's coordinate sequence
    first, then the channels of [df] under their names and in their order,
    each as long as the master grid. *)
Definition aligned_to (energy_key : string) (energy_master : array)
  (df out : DataFrame) : Prop :=
  exists cols,
    out = (energy_key, energy_master) :: cols
    /\ map fst cols = channels energy_key df
    /\ Forall (fun kv => List.length (snd kv) = List.length energy_master) cols.

Lemma resampled_aligned_to (energy_key : string) (energy_master : array) (df : DataFrame) :
  has_grid energy_key df ->
  aligned_to energy_key energy_master df (resampled energy_key energy_master df).
Proof.
  intros Hgrid.
  exists (map (fun c => (c, on_master energy_key energy_master df c))
              (channels energy_key df)).
  split; [reflexivity|]. split.
  - rewrite map_map. cbn [fst]. apply map_id.
  - apply Forall_map, Forall_forall. intros c Hc. cbn [snd].
    apply on_master_length; [assumption|]. now apply filter_In in Hc.
Qed.

(** C4 (amended): for a group whose master grid is non-empty and strictly
    increasing and whose other scans are well-formed frames with a
    non-empty coordinate sequence, alignment returns the master scan
    followed by one scan per other scan, each with exactly the master's
    coordinate sequence and the channels of its scan, and aligning that
    group again returns it unchanged. *)
Theorem alignment_idempotent_on_increasing_master
  (df0 : DataFrame) (rest : list DataFrame) (energy_key : string) (energy_master : array) :
  getitem df0 energy_key = Ok energy_master ->
  energy_master <> [] -> Spec.increasing energy_master = true ->
  Forall wf_frame rest -> Forall (has_grid energy_key) rest ->
  exists outs,
    standardize_energy_grid (df0 :: rest) energy_key = Ok (df0 :: outs) /\
    Forall2 (aligned_to energy_key energy_master) rest outs /\
    Forall (fun df => getitem df energy_key = Ok energy_master) (df0 :: outs) /\
    standardize_energy_grid (df0 :: outs) energy_key = Ok (df0 :: outs).
Proof.
  intros Hm Hne Hinc Hwf Hgrid.
  exists (map (resampled energy_key energy_master) rest).
  split; [apply standardize_ok; assumption|]. split; [|split].
  - clear Hwf. induction Hgrid as [|df rest Hdf _ IH]; cbn [map]; constructor.
    + now apply resampled_aligned_to.
    + exact IH.
  - constructor; [exact Hm|]. apply Forall_map, Forall_forall. intros df _.
    unfold resampled. cbn [getitem]. now rewrite String.eqb_refl.
  - unfold standardize_energy_grid. rewrite Hm. cbn [bind].
    rewrite (mapM_ok _ (fun df => df)); [now rewrite map_id|].
    intros df Hdf. apply in_map_iff in Hdf as (df' & <- & Hdf').
    rewrite Forall_forall in Hwf, Hgrid.
    apply resample_resampled; auto.
Qed.

Lemma alignment_idempotent_on_increasing_master_witness :
  exists outs,
    standardize_energy_grid [frame [1; 2; 4]%Z [10; 20; 30]%Z; frame [0; 3]%Z [0; 6]%Z]
      "energy"%string
    = Ok (frame [1; 2; 4]%Z [10; 20; 30]%Z :: outs) /\
    Forall2 (aligned_to "energy"%string (map of_Z [1; 2; 4]%Z))
      [frame [0; 3]%Z [0; 6]%Z] outs /\
    Forall (fun df => getitem df "energy"%string = Ok (map of_Z [1; 2; 4]%Z))
      (frame [1; 2; 4]%Z [10; 20; 30]%Z :: outs) /\
    standardize_energy_grid (frame [1; 2; 4]%Z [10; 20; 30]%Z :: outs) "energy"%string
    = Ok (frame [1; 2; 4]%Z [10; 20; 30]%Z :: outs).
Proof.
  apply (@alignment_idempotent_on_increasing_master (frame [1; 2; 4]%Z [10; 20; 30]%Z)
           [frame [0; 3]%Z [0; 6]%Z] "energy"%string (map of_Z [1; 2; 4]%Z)).
  - reflexivity.
  - discriminate.
  - vm_compute. reflexivity.
  - constructor; [|constructor]. apply wf_frame_two; [discriminate | reflexivity].
  - constructor; [|constructor]. eexists. split; [reflexivity | discriminate].
Defined.

End Grid.

(** ** Least squares on the basis (1, x) *)

Module LeastSquares.

Import Np NpFacts.
Local Open Scope Qc_scope.

Definition sq (u : Qc) : Qc := u * u.

(** [n * sum x^2 - (sum x)^2], the determinant of the Gram matrix. *)
Definition gram_det (l : list Qc) : Qc :=
  qlen l * qsum (map sq l) - qsum l * qsum l.

Lemma qlen_cons (x : Qc) (l : list Qc) : qlen (x :: l) = qlen l + 1.
Proof.
  unfold qlen, qc. cbn [List.length]. apply Qc_is_canon.
  unfold Qcplus, Q2Qc, this. rewrite !Qred_correct.
  unfold Qeq, Qplus; simpl. lia.
Qed.

Lemma qlen_nil : qlen [] = 0.
Proof. apply Qc_is_canon. reflexivity. Qed.

Lemma sq_nonneg (u : Qc) : 0 <= sq u.
Proof.
  unfold sq, Qcle, Qcmult, Q2Qc, this. destruct u as [[n d] Hu].
  rewrite !Qred_correct. unfold Qle, Qmult; simpl. nia.
Qed.

Lemma qlen_pos (x : Qc) (l : list Qc) : qlen (x :: l) <> 0.
Proof.
  apply not_eq_sym, Qclt_not_eq. unfold qlen.
  apply qc_of_nat_pos. cbn [List.length]. lia.
Qed.

Lemma one_plus_sq (u : Qc) : 1 + u * u <> 0.
Proof.
  apply not_eq_sym, Qclt_not_eq.
  apply Qclt_le_trans with (y := 1); [reflexivity|].
  rewrite <- (Qcplus_0_r 1) at 1.
  apply Qcplus_le_compat; [apply Qcle_refl | apply (sq_nonneg u)].
Qed.

Lemma qsum_repeat (y : Qc) (n : nat) : qsum (repeat y n) = qlen (repeat y n) * y.
Proof.
  induction n as [|n IH].
  - cbn [repeat]. rewrite qlen_nil. cbn [qsum fold_right]. ring.
  - cbn [repeat]. rewrite qlen_cons. cbn [qsum fold_right].
    fold (qsum (repeat y n)). rewrite IH. ring.
Qed.

End LeastSquares.

(** ** CurveNormalizer *)

Module Normalizer.

Import Np NpFacts Analysis LeastSquares.
Local Open Scope Qc_scope.

Lemma finite_values_Fin (q : list Qc) : finite_values (map Fin q) = Some q.
Proof.
  induction q as [|x q IH]; [reflexivity|].
  cbn [map]. unfold finite_values in *. cbn [fold_right]. now rewrite IH.
Qed.

Lemma lstsq_affine_finite (x y : list Qc) :
  List.length x = List.length y ->
  lstsq_affine (map Fin x) (map Fin y)
  = Ok (Fin (fst (lstsq_coeffs x y)), Fin (snd (lstsq_coeffs x y))).
Proof.
  intros H. unfold lstsq_affine. rewrite !length_map, !finite_values_Fin.
  rewrite H. now rewrite Nat.eqb_refl.
Qed.

Lemma affine_finite (c : Qc * Qc) (x : list Qc) :
  affine (Fin (fst c), Fin (snd c)) (map Fin x)
  = map Fin (map (fun v => fst c + snd c * v) x).
Proof.
  unfold affine. rewrite !map_map. apply map_ext. intros v.
  change (of_nat 1) with (Fin 1). cbn [fst snd fmul fadd]. now rewrite Qcmult_1_r.
Qed.

(** The row that replaces [row_i]. *)
Definition fit_row (row0 row_i : array) : array :=
  match lstsq_affine row_i row0 with
  | Ok c => affine c row_i
  | Raise _ => []
  end.

Lemma prenormalize_finite (row0 : list Qc) (others : list (list Qc)) :
  Forall (fun r => List.length r = List.length row0) others ->
  prenormalize_data (Array2 (List.length row0) (map (map Fin) (row0 :: others)))
  = Ok (Array2 (List.length row0)
          (map Fin row0 :: map (fit_row (map Fin row0)) (map (map Fin) others))).
Proof.
  intros Hlen. unfold prenormalize_data. cbn [rows map shape1].
  rewrite (mapM_ok _ (fit_row (map Fin row0))); [reflexivity|].
  intros r Hr. apply in_map_iff in Hr as (q & <- & Hq).
  rewrite Forall_forall in Hlen. unfold fit_row.
  rewrite lstsq_affine_finite by now apply Hlen. reflexivity.
Qed.

(** *** Claim C7 *)


Lemma finite_values_all (r : array) :
  forallb isfinite r = true -> exists q, finite_values r = Some q.
Proof.
  induction r as [|x r IH]; [now exists []|].
  cbn [forallb]. intros H. apply andb_true_iff in H as [Hx Hr].
  destruct (IH Hr) as (q & Hq). destruct x; try discriminate.
  eexists. unfold finite_values in *. cbn [fold_right]. now rewrite Hq.
Qed.

Lemma finite_values_some (r : array) :
  forallb isfinite r = false -> finite_values r = None.
Proof.
  induction r as [|x r IH]; [discriminate|].
  cbn [forallb]. intros H. unfold finite_values in *. cbn [fold_right].
  destruct x; try reflexivity. cbn [isfinite andb] in H. now rewrite (IH H).
Qed.

Lemma affine_length (c : npfloat * npfloat) (x : array) :
  List.length (affine c x) = List.length x.
Proof. apply length_map. Qed.

(** The fit of one row: it exists exactly when the row is finite. *)
Lemma lstsq_affine_basis (row_i row0 : array) :
  List.length row_i = List.length row0 ->
  (forallb isfinite row_i = true -> exists c, lstsq_affine row_i row0 = Ok c)
  /\ (forallb isfinite row_i = false -> lstsq_affine row_i row0 = Raise LinAlgError).
Proof.
  intros Hlen. unfold lstsq_affine. rewrite Hlen, Nat.eqb_refl. cbn [negb]. split.
  - intros H. destruct (finite_values_all _ H) as (q & ->).
    destruct (finite_values row0); eauto.
  - intros H. now rewrite (finite_values_some _ H).
Qed.



End Normalizer.


(** ** ChiSquareScorer: a matrix without columns *)

Module ChiSquareInvariance.

Import Np NpFacts Degenerate Outliers ChiSquare.
Local Open Scope Qc_scope.

(** On a matrix without columns [1 / n_pts] raises [ZeroDivisionError], in
    the scorer, in the rejection and in the combined classifier, before any
    estimator is used. *)
Theorem no_columns_zero_division (E : Estimator) (data : ndarray2) (threshold : Qc) :
  shape1 data = 0%nat ->
  calc_mod_chisq data = Raise ZeroDivisionError /\
  modified_chisq_rejection data threshold = Raise ZeroDivisionError /\
  MCS_into_LOF data threshold = Raise ZeroDivisionError.
Proof.
  intros H.
  assert (Hc : calc_mod_chisq data = Raise ZeroDivisionError)
    by (unfold calc_mod_chisq; now rewrite H).
  assert (Hm : modified_chisq_rejection data threshold = Raise ZeroDivisionError)
    by (unfold modified_chisq_rejection; now rewrite Hc).
  repeat split; auto. unfold MCS_into_LOF. now rewrite Hm.
Qed.

Lemma no_columns_zero_division_witness :
  calc_mod_chisq (Array2 0 [[]; []]) = Raise ZeroDivisionError /\
  modified_chisq_rejection (Array2 0 [[]; []]) default_threshold = Raise ZeroDivisionError /\
  MCS_into_LOF (LocalOutlierFactor := all_inlier_estimator) (Array2 0 [[]; []])
    default_threshold = Raise ZeroDivisionError.
Proof.
  apply (@no_columns_zero_division all_inlier_estimator (Array2 0 [[]; []])
           default_threshold).
  reflexivity.
Defined.

End ChiSquareInvariance.

(** ** RobustStatistics: errors and degenerate input *)

Module RobustEdge.

Import Np NpFacts Degenerate Analysis Stats Robust.
Local Open Scope Qc_scope.



(** A matrix without values is not trimmed and not checked: whatever the
    trim fraction, every row gets the score [nan] and no row is marked. *)
Theorem check_for_outliers_no_values
  (all_data : ndarray2) (trim_fraction threshold : Qc) :
  wf all_data -> size all_data = 0%nat ->
  check_for_outliers all_data trim_fraction threshold
  = Ok (repeat NaN (shape0 all_data), repeat false (shape0 all_data)).
Proof.
  intros Hwf Hsize. unfold check_for_outliers, trimboth.
  rewrite Hsize. cbn [Nat.eqb bind].
  assert (Hscores :
    map (fun s => fdiv s (of_nat (shape1 all_data)))
        (reduce_axis1 np_sum
           (broadcast_rows sq_quot
              (broadcast_rows fsub all_data (reduce_axis0 np_mean all_data))
              (reduce_axis0 np_std all_data)))
    = repeat NaN (shape0 all_data)).
  { unfold reduce_axis1, broadcast_rows, shape0. cbn [rows]. rewrite !map_map.
    unfold wf in Hwf. unfold size, shape0 in Hsize.
    induction Hwf as [|r l Hr _ IH]; [reflexivity|].
    cbn [List.length] in Hsize.
    assert (H1 : shape1 all_data = 0%nat) by nia.
    cbn [map List.length repeat]. f_equal.
    - rewrite H1 in Hr. destruct r; [|discriminate]. rewrite H1. reflexivity.
    - apply IH. rewrite H1. lia. }
  cbv zeta. rewrite Hscores. f_equal. f_equal.
  rewrite map_repeat. reflexivity.
Qed.

Lemma check_for_outliers_no_values_witness :
  check_for_outliers (Array2 0 [[]; []; []]) (qc 3 4) default_check_threshold
  = Ok (repeat NaN 3, repeat false 3).
Proof.
  apply (@check_for_outliers_no_values (Array2 0 [[]; []; []]) (qc 3 4)
           default_check_threshold).
  - repeat constructor.
  - reflexivity.
Defined.

(** With fewer than five rows the default fraction 0.2 discards nothing:
    the statistics are those of the whole columns. *)
Theorem check_for_outliers_small_group (all_data : ndarray2) (threshold : Qc) :
  (shape0 all_data < 5)%nat ->
  check_for_outliers all_data default_trim_fraction threshold
  = check_for_outliers all_data 0 threshold.
Proof.
  intros Hn. unfold check_for_outliers, trimboth.
  assert (Hcuts : trim_cuts (shape0 all_data) default_trim_fraction
                  = trim_cuts (shape0 all_data) 0).
  { destruct (shape0 all_data) as [|[|[|[|[|n]]]]]; try lia; reflexivity. }
  now rewrite Hcuts.
Qed.

Lemma check_for_outliers_small_group_witness :
  check_for_outliers (Array2 1 [[of_Z 1]; [of_Z 2]; [of_Z 3]; [of_Z 40]])
    default_trim_fraction default_check_threshold
  = check_for_outliers (Array2 1 [[of_Z 1]; [of_Z 2]; [of_Z 3]; [of_Z 40]])
      0 default_check_threshold.
Proof.
  apply (@check_for_outliers_small_group
           (Array2 1 [[of_Z 1]; [of_Z 2]; [of_Z 3]; [of_Z 40]]) default_check_threshold).
  vm_compute. lia.
Defined.

End RobustEdge.


(** ** CurveNormalizer: what the fit keeps and what it removes *)

Module NormalizerFacts.

Import Np NpFacts Analysis LeastSquares Normalizer.
Local Open Scope Qc_scope.

(** The values [basis @ c] of the fitted row. *)
Definition fitted_values (x y : list Qc) : list Qc :=
  map (fun v => fst (lstsq_coeffs x y) + snd (lstsq_coeffs x y) * v) x.

Lemma fit_row_finite (row0 x : list Qc) :
  List.length x = List.length row0 ->
  fit_row (map Fin row0) (map Fin x) = map Fin (fitted_values x row0).
Proof.
  intros H. unfold fit_row. rewrite lstsq_affine_finite by assumption.
  apply affine_finite.
Qed.

Lemma gram_det_repeat (x0 : Qc) (n : nat) : gram_det (repeat x0 n) = 0.
Proof.
  unfold gram_det. rewrite map_repeat, !qsum_repeat.
  unfold qlen. rewrite !repeat_length. unfold sq. ring.
Qed.

(** The fit of a constant row is the mean of the target at every point. *)
Lemma fitted_constant (x0 : Qc) (m : nat) (y : list Qc) :
  fitted_values (repeat x0 (S m)) y
  = repeat (qsum y / qlen (repeat x0 (S m))) (S m).
Proof.
  unfold fitted_values, lstsq_coeffs. fold sq.
  fold (gram_det (repeat x0 (S m))). rewrite gram_det_repeat, Qc_eq_bool_refl.
  cbn [repeat map fst snd]. rewrite map_repeat.
  f_equal; [|f_equal]; field;
    (split; [apply qlen_pos | apply one_plus_sq]).
Qed.

Definition finite_matrix (row0 : list Qc) (others : list (list Qc)) : ndarray2 :=
  Array2 (List.length row0) (map (map Fin) (row0 :: others)).

Definition same_length (row0 : list Qc) (others : list (list Qc)) : Prop :=
  Forall (fun r => List.length r = List.length row0) others.

Lemma fit_rows_finite (row0 : list Qc) (others : list (list Qc)) :
  same_length row0 others ->
  map (fit_row (map Fin row0)) (map (map Fin) others)
  = map (fun x => map Fin (fitted_values x row0)) others.
Proof.
  intros H. rewrite map_map. apply map_ext_in. intros x Hx.
  unfold same_length in H. rewrite Forall_forall in H.
  apply fit_row_finite. now apply H.
Qed.

Lemma prenormalize_fitted (row0 : list Qc) (others : list (list Qc)) :
  same_length row0 others ->
  prenormalize_data (finite_matrix row0 others)
  = Ok (Array2 (List.length row0)
          (map Fin row0 :: map (fun x => map Fin (fitted_values x row0)) others)).
Proof.
  intros H. unfold finite_matrix. rewrite prenormalize_finite by exact H.
  now rewrite fit_rows_finite.
Qed.

(** Normalisation needs a master row: a matrix without rows raises
    [IndexError].  On a matrix of finite values it returns a well-formed
    matrix of the same shape. *)
Theorem prenormalize_keeps_shape (row0 : list Qc) (others : list (list Qc)) :
  same_length row0 others ->
  (forall n_pts, prenormalize_data (Array2 n_pts []) = Raise IndexError) /\
  exists out,
    prenormalize_data (finite_matrix row0 others) = Ok out /\
    shape0 out = shape0 (finite_matrix row0 others) /\
    shape1 out = shape1 (finite_matrix row0 others) /\
    wf out.
Proof.
  intros H. split; [reflexivity|].
  eexists. split; [now apply prenormalize_fitted|].
  unfold shape0, finite_matrix, wf. cbn [rows shape1 List.length map].
  rewrite !length_map. repeat split.
  constructor; [apply length_map|].
  apply Forall_map. unfold same_length in H.
  eapply Forall_impl; [|exact H]. intros x Hx.
  unfold fitted_values. now rewrite !length_map.
Qed.

Lemma prenormalize_keeps_shape_witness :
  (forall n_pts, prenormalize_data (Array2 n_pts []) = Raise IndexError) /\
  exists out,
    prenormalize_data (finite_matrix [qc 0 1; qc 1 1; qc 4 1] [[qc 2 1; qc 2 1; qc 3 1]])
    = Ok out /\
    shape0 out = shape0 (finite_matrix [qc 0 1; qc 1 1; qc 4 1] [[qc 2 1; qc 2 1; qc 3 1]]) /\
    shape1 out = shape1 (finite_matrix [qc 0 1; qc 1 1; qc 4 1] [[qc 2 1; qc 2 1; qc 3 1]]) /\
    wf out.
Proof.
  apply (@prenormalize_keeps_shape [qc 0 1; qc 1 1; qc 4 1] [[qc 2 1; qc 2 1; qc 3 1]]).
  repeat constructor.
Defined.

(** A row without variance cannot be fitted for a slope: least squares of
    least norm replaces it by the mean of the master row at every point. *)
Theorem prenormalize_constant_row
  (row0 : list Qc) (others : list (list Qc)) (i : nat) (v : Qc) :
  row0 <> [] -> same_length row0 others ->
  nth_error others i = Some (repeat v (List.length row0)) ->
  exists fitted,
    prenormalize_data (finite_matrix row0 others)
    = Ok (Array2 (List.length row0) (map Fin row0 :: fitted)) /\
    nth_error fitted i
    = Some (repeat (Fin (qsum row0 / qlen row0)) (List.length row0)).
Proof.
  intros Hne Hlen Hi. eexists. split; [now apply prenormalize_fitted|].
  rewrite nth_error_map, Hi. cbn [option_map]. f_equal.
  destruct row0 as [|y0 row0]; [congruence|]. cbn [List.length].
  rewrite fitted_constant, map_repeat. do 3 f_equal.
  unfold qlen. cbn [List.length]. now rewrite repeat_length.
Qed.

Lemma prenormalize_constant_row_witness :
  exists fitted,
    prenormalize_data (finite_matrix [qc 0 1; qc 1 1; qc 5 1] [[qc 3 1; qc 3 1; qc 3 1]])
    = Ok (Array2 3 (map Fin [qc 0 1; qc 1 1; qc 5 1] :: fitted)) /\
    nth_error fitted 0
    = Some (repeat (Fin (qsum [qc 0 1; qc 1 1; qc 5 1] / qlen [qc 0 1; qc 1 1; qc 5 1])) 3).
Proof.
  apply (@prenormalize_constant_row [qc 0 1; qc 1 1; qc 5 1] [[qc 3 1; qc 3 1; qc 3 1]]
           0 (qc 3 1)).
  - discriminate.
  - repeat constructor.
  - reflexivity.
Defined.

End NormalizerFacts.

(** ** GridAligner: failures and what alignment keeps *)

Module GridFacts.

Import Np Analysis Interp Grid.

Section Failures.

Context {A B : Type}.

Lemma mapM_raise (f : A -> result B) (e : exn) (l : list A) :
  Forall (fun a => (exists b, f a = Ok b) \/ f a = Raise e) l ->
  Exists (fun a => f a = Raise e) l ->
  mapM f l = Raise e.
Proof.
  induction 1 as [|a l Ha _ IH]; intros Hex; [inversion Hex|].
  cbn [mapM]. destruct Ha as [(b & Hb) | Ha].
  - rewrite Hb. cbn [bind].
    inversion Hex as [? ? Hh | ? ? Ht]; subst; [congruence|].
    now rewrite (IH Ht).
  - now rewrite Ha.
Qed.

Lemma mapM_all_ok (f : A -> result B) (l : list A) :
  Forall (fun a => exists b, f a = Ok b) l -> exists bs, mapM f l = Ok bs.
Proof.
  induction 1 as [|a l (b & Hb) _ (bs & IH)]; [now exists []|].
  exists (b :: bs). cbn [mapM]. now rewrite Hb, IH.
Qed.

End Failures.

(** A scan without coordinates that has a channel to interpolate. *)
Definition empty_grid_with_channel (energy_key : string) (df : DataFrame) : Prop :=
  getitem df energy_key = Ok [] /\ channels energy_key df <> [].

Lemma resample_empty_grid (energy_key : string) (energy_master : array) (df : DataFrame) :
  empty_grid_with_channel energy_key df ->
  resample energy_key energy_master df = Raise ValueError.
Proof.
  intros [Hxp Hch]. unfold resample. fold (not_key energy_key).
  fold (channels energy_key df).
  destruct (channels energy_key df) as [|c cs] eqn:E; [congruence|].
  assert (Hc : In c (df_columns df)).
  { assert (H : In c (channels energy_key df)) by (rewrite E; now left).
    now apply filter_In in H. }
  destruct (getitem_In df c Hc) as (fp & Hfp & _).
  cbn [mapM]. rewrite Hxp, Hfp. reflexivity.
Qed.

Lemma resample_no_channel (energy_key : string) (energy_master xp : array) (df : DataFrame) :
  getitem df energy_key = Ok xp -> channels energy_key df = [] ->
  resample energy_key energy_master df = Ok [(energy_key, energy_master)].
Proof.
  intros _ Hch. unfold resample. fold (not_key energy_key).
  fold (channels energy_key df). now rewrite Hch.
Qed.

Lemma resample_outcome (energy_key : string) (energy_master : array) (df : DataFrame) :
  wf_frame df -> In energy_key (df_columns df) ->
  ((exists out, resample energy_key energy_master df = Ok out)
   /\ ~ empty_grid_with_channel energy_key df)
  \/ (resample energy_key energy_master df = Raise ValueError
      /\ empty_grid_with_channel energy_key df).
Proof.
  intros Hwf Hkey. destruct (getitem_In df energy_key Hkey) as (xp & Hxp & _).
  destruct xp as [|x xp].
  - destruct (channels energy_key df) as [|c cs] eqn:E.
    + left. split.
      * eexists. eapply resample_no_channel; eassumption.
      * intros [_ H]. congruence.
    + right. assert (Hbad : empty_grid_with_channel energy_key df).
      { split; [exact Hxp|]. rewrite E. discriminate. }
      split; [now apply resample_empty_grid | exact Hbad].
  - left. split.
    + eexists. apply resample_ok; [exact Hwf|]. eexists. split; [exact Hxp | discriminate].
    + intros [H _]. congruence.
Qed.

(** Alignment of well-formed frames that all have the coordinate column
    fails in one case only: some scan after the first has an empty coordinate
    sequence and a channel to interpolate; it then raises the [ValueError] of
    [np.interp]. *)
Theorem alignment_fails_only_on_empty_grid
  (df0 : DataFrame) (rest : list DataFrame) (energy_key : string) (energy_master : array) :
  getitem df0 energy_key = Ok energy_master ->
  Forall wf_frame rest ->
  Forall (fun df => In energy_key (df_columns df)) rest ->
  (Exists (empty_grid_with_channel energy_key) rest ->
   standardize_energy_grid (df0 :: rest) energy_key = Raise ValueError) /\
  (~ Exists (empty_grid_with_channel energy_key) rest ->
   exists dfs_out, standardize_energy_grid (df0 :: rest) energy_key = Ok dfs_out).
Proof.
  intros Hm Hwf Hkey. unfold standardize_energy_grid. rewrite Hm. cbn [bind].
  assert (Hout : Forall (fun df =>
            ((exists out, resample energy_key energy_master df = Ok out)
             /\ ~ empty_grid_with_channel energy_key df)
            \/ (resample energy_key energy_master df = Raise ValueError
                /\ empty_grid_with_channel energy_key df)) rest).
  { rewrite Forall_forall in *. intros df Hdf. apply resample_outcome; auto. }
  split.
  - intros Hex.
    rewrite (@mapM_raise _ _ (resample energy_key energy_master) ValueError rest);
      [reflexivity| |].
    + eapply Forall_impl; [|exact Hout]. intros df [[H _] | [H _]]; auto.
    + apply Exists_exists in Hex as (df & Hdf & Hbad).
      apply Exists_exists. exists df. split; [exact Hdf|].
      now apply resample_empty_grid.
  - intros Hnone.
    destruct (@mapM_all_ok _ _ (resample energy_key energy_master) rest) as (bs & Hbs).
    + rewrite Forall_forall in *. intros df Hdf.
      destruct (Hout df Hdf) as [[H _] | [_ Hbad]]; [exact H|].
      exfalso. apply Hnone. apply Exists_exists. now exists df.
    + rewrite Hbs. now eexists.
Qed.

Lemma alignment_fails_only_on_empty_grid_witness :
  (Exists (empty_grid_with_channel "energy"%string) [frame [] []] ->
   standardize_energy_grid [frame [1; 2]%Z [5; 6]%Z; frame [] []] "energy"%string
   = Raise ValueError) /\
  (~ Exists (empty_grid_with_channel "energy"%string) [frame [] []] ->
   exists dfs_out,
     standardize_energy_grid [frame [1; 2]%Z [5; 6]%Z; frame [] []] "energy"%string
     = Ok dfs_out).
Proof.
  apply (@alignment_fails_only_on_empty_grid (frame [1; 2]%Z [5; 6]%Z) [frame [] []]
           "energy"%string (map of_Z [1; 2]%Z)).
  - reflexivity.
  - constructor; [|constructor]. apply wf_frame_two; [discriminate | reflexivity].
  - constructor; [|constructor]. now left.
Defined.



End GridFacts.

(** ** GridAligner: groups that are already aligned *)

Module Aligned.

Import Np Analysis Interp Grid.

(** A scan on the master grid: the coordinate column first, then channels of
    the master's length under distinct names. *)
Definition aligned (energy_key : string) (energy_master : array) (df : DataFrame) : Prop :=
  exists cols,
    df = (energy_key, energy_master) :: cols /\
    NoDup (map fst cols) /\
    ~ In energy_key (map fst cols) /\
    Forall (fun kv => List.length (snd kv) = List.length energy_master) cols.

Lemma mapM_fst {B : Type} (f : string -> result (string * B)) (cols : list (string * B)) :
  (forall c v, In (c, v) cols -> f c = Ok (c, v)) ->
  mapM f (map fst cols) = Ok cols.
Proof.
  induction cols as [|[c v] cols IH]; intros H; [reflexivity|].
  cbn [map fst mapM]. rewrite (H c v) by now left. cbn [bind].
  rewrite IH by (intros; apply H; now right). reflexivity.
Qed.

Lemma resample_aligned (energy_key : string) (energy_master : array) (df : DataFrame) :
  energy_master <> [] -> Spec.increasing energy_master = true ->
  aligned energy_key energy_master df ->
  resample energy_key energy_master df = Ok df.
Proof.
  intros Hne Hinc (cols & -> & Hnd & Hkey & Hlen). unfold resample.
  unfold df_columns. cbn [map fst filter]. rewrite String.eqb_refl. cbn [negb].
  rewrite filter_all.
  - rewrite (mapM_fst _ cols); [reflexivity|].
    intros c v Hin. cbn [getitem]. rewrite String.eqb_refl. cbn [bind].
    assert (Hc : In c (map fst cols)) by (apply in_map_iff; now exists (c, v)).
    destruct (String.eqb energy_key c) eqn:E.
    { apply String.eqb_eq in E. subst. contradiction. }
    rewrite (getitem_NoDup cols c v Hnd Hin). cbn [bind].
    rewrite np_interp_own_grid; auto.
    rewrite Forall_forall in Hlen. apply (Hlen (c, v) Hin).
  - apply Forall_forall. intros c Hc.
    destruct (String.eqb c energy_key) eqn:E; [|reflexivity].
    apply String.eqb_eq in E. subst. contradiction.
Qed.

(** A group that is already on a non-empty, strictly increasing master grid
    is returned as it is. *)
Theorem aligned_group_unchanged
  (df0 : DataFrame) (rest : list DataFrame) (energy_key : string) (energy_master : array) :
  getitem df0 energy_key = Ok energy_master ->
  energy_master <> [] -> Spec.increasing energy_master = true ->
  Forall (aligned energy_key energy_master) rest ->
  standardize_energy_grid (df0 :: rest) energy_key = Ok (df0 :: rest).
Proof.
  intros Hm Hne Hinc Hal. unfold standardize_energy_grid. rewrite Hm. cbn [bind].
  rewrite (mapM_ok _ (fun df => df)); [now rewrite map_id|].
  intros df Hdf. rewrite Forall_forall in Hal. apply resample_aligned; auto.
Qed.

Lemma aligned_group_unchanged_witness :
  standardize_energy_grid [frame [1; 2; 4]%Z [10; 20; 30]%Z; frame [1; 2; 4]%Z [7; 7; 9]%Z]
    "energy"%string
  = Ok [frame [1; 2; 4]%Z [10; 20; 30]%Z; frame [1; 2; 4]%Z [7; 7; 9]%Z].
Proof.
  apply (@aligned_group_unchanged (frame [1; 2; 4]%Z [10; 20; 30]%Z)
           [frame [1; 2; 4]%Z [7; 7; 9]%Z] "energy"%string (map of_Z [1; 2; 4]%Z)).
  - reflexivity.
  - discriminate.
  - vm_compute. reflexivity.
  - constructor; [|constructor].
    exists [("mu"%string, map of_Z [7; 7; 9]%Z)]. repeat split.
    + constructor; [intros []|constructor].
    + intros [H | []]. discriminate.
    + constructor; [reflexivity|constructor].
Defined.

End Aligned.


(** ** What a trimmed estimator is fitted on *)

Module Trimmed.

Import Np NpFacts Degenerate Interp Analysis Stats Robust Outliers.
Local Open Scope Qc_scope.

(** [fit_trimmed] does not fit the estimator on scans: whatever the rounding
    of the float64 operations, when the product of [trim_fraction / 2] and
    the number [n] of rows, as the code rounds them, truncates to [k] with
    [0 <= k] and [2 * k < n], the estimator is fitted on a matrix of
    [n - 2k] rows whose [j]-th column holds the middle order statistics of
    column [j] of the data, in some order. *)
Theorem fit_trimmed_middle_values {float64 : Rounded.Arith} (E : Estimator)
  (data : ndarray2) (trim_fraction : npfloat) (q : Qc) :
  shape1 data <> 0%nat ->
  Rounded.mul (Rounded.div trim_fraction (of_nat 2)) (of_nat (shape0 data)) = Fin q ->
  (0 <= int_of q)%Z ->
  (2 * Z.to_nat (int_of q) < shape0 data)%nat ->
  exists trim_data,
    Rounded.fit_trimmed data trim_fraction = fit trim_data /\
    shape0 trim_data = (shape0 data - 2 * Z.to_nat (int_of q))%nat /\
    shape1 trim_data = shape1 data /\
    Forall2 (Spec.kept_of (Z.to_nat (int_of q))) (columns data) (columns trim_data).
Proof.
  intros H1 Hq H0 Hk.
  destruct (rounded_trimboth_kept data (Rounded.div trim_fraction (of_nat 2)) Hq H0 Hk)
    as (trim_data & Htrim & Hs1 & Hs0 & Hkept).
  exists trim_data. unfold Rounded.fit_trimmed. rewrite Htrim. cbn [bind].
  repeat split; auto.
Qed.

Lemma fit_trimmed_middle_values_witness :
  exists trim_data,
    Rounded.fit_trimmed (float64 := Rounded.exact) (estimator := all_inlier_estimator)
      (Array2 2 [[of_Z 5; of_Z 1]; [of_Z 1; of_Z 2]; [of_Z 3; of_Z 9];
                 [of_Z 2; of_Z 0]; [of_Z 4; of_Z 4]])
      (Fin (qc 4 10))
    = fit (Estimator := all_inlier_estimator) trim_data /\
    shape0 trim_data = 3%nat /\
    shape1 trim_data = 2%nat /\
    Forall2 (Spec.kept_of 1)
      (columns (Array2 2 [[of_Z 5; of_Z 1]; [of_Z 1; of_Z 2]; [of_Z 3; of_Z 9];
                          [of_Z 2; of_Z 0]; [of_Z 4; of_Z 4]]))
      (columns trim_data).
Proof.
  apply (@fit_trimmed_middle_values Rounded.exact all_inlier_estimator
           (Array2 2 [[of_Z 5; of_Z 1]; [of_Z 1; of_Z 2]; [of_Z 3; of_Z 9];
                      [of_Z 2; of_Z 0]; [of_Z 4; of_Z 4]])
           (Fin (qc 4 10)) (qc 1 1)).
  - discriminate.
  - by_computation.
  - vm_compute. discriminate.
  - vm_compute. lia.
Defined.

End Trimmed.

(** ** Aggregator: the uid lists of one method *)

Module Partition.

Import Np Outliers.

Lemma negative_of_nonzero (labels : list Z) :
  Forall (fun l => l <> 0%Z) labels -> negative labels = map negb (positive labels).
Proof.
  unfold negative, positive. intros H. rewrite map_map.
  apply map_ext_in. intros l Hl. rewrite Forall_forall in H. specialize (H l Hl).
  destruct (Z.ltb_spec l 0), (Z.ltb_spec 0 l); simpl; try reflexivity; lia.
Qed.

Lemma select_split {A : Type} (l : list A) (mask : list bool) :
  List.length mask = List.length l ->
  Permutation (select l mask ++ select l (map negb mask)) l.
Proof.
  revert mask; induction l as [|a l IH]; intros [|b mask] H; simpl in H;
    try discriminate; [reflexivity|].
  assert (H' : List.length mask = List.length l) by lia.
  destruct b; cbn [map negb select].
  - cbn [app]. apply perm_skip. now apply IH.
  - etransitivity; [symmetry; apply Permutation_middle|]. apply perm_skip. now apply IH.
Qed.

Lemma NoDup_app_disjoint {A : Type} (l1 l2 : list A) (x : A) :
  NoDup (l1 ++ l2) -> In x l1 -> ~ In x l2.
Proof.
  induction l1 as [|a l1 IH]; [contradiction|].
  cbn [app]. intros Hnd [-> | Hin] H2.
  - inversion Hnd as [|? ? Hx _]. apply Hx. apply in_or_app. now right.
  - inversion Hnd; subst. now apply (IH H3 Hin).
Qed.

(** When the number of labels differs from the number of uids, the mask
    indexing raises [IndexError]. *)
Lemma report_length_mismatch (uids : list string) (data : ndarray2) (labels : list Z) :
  List.length labels <> List.length uids -> report uids data labels = Raise IndexError.
Proof.
  intros H. unfold report, getitem_mask. unfold positive at 1. rewrite length_map.
  destruct (List.length labels =? List.length uids) eqn:E; [|reflexivity].
  apply Nat.eqb_eq in E. contradiction.
Qed.

(** With one non-zero label per uid, the inlier and outlier lists of a
    method together hold every uid exactly as often as the input does, so
    they are disjoint when the uids are distinct, and the average is taken
    over the rows of the given (original) matrix with a positive label. *)
Theorem report_partitions_uids (uids : list string) (data : ndarray2) (labels : list Z) :
  List.length labels = List.length uids ->
  shape0 data = List.length uids ->
  Forall (fun l => l <> 0%Z) labels ->
  exists r,
    report uids data labels = Ok r /\
    Permutation (inliers r ++ outliers r) uids /\
    (NoDup uids -> forall u, In u (inliers r) -> ~ In u (outliers r)) /\
    average r
    = reduce_axis0 np_mean (Array2 (shape1 data) (select (rows data) (positive labels))).
Proof.
  intros Hlen Hrows Hnz. unfold report, getitem_mask.
  unfold positive at 1 3, negative at 1. rewrite !length_map.
  unfold shape0 in Hrows. rewrite Hlen, Hrows, Nat.eqb_refl. cbn [bind].
  eexists. split; [reflexivity|]. cbn [inliers outliers average].
  assert (Hperm : Permutation (select uids (positive labels)
                                 ++ select uids (negative labels)) uids).
  { rewrite (negative_of_nonzero Hnz). apply select_split.
    unfold positive. now rewrite length_map. }
  split; [exact Hperm|]. split; [|reflexivity].
  intros Hnd u. apply NoDup_app_disjoint.
  eapply Permutation_NoDup; [symmetry; exact Hperm | exact Hnd].
Qed.

Lemma report_partitions_uids_witness :
  exists r,
    report ["a"; "b"; "c"]%string (Array2 1 [[of_Z 1]; [of_Z 9]; [of_Z 2]])
      [1%Z; (-1)%Z; 1%Z] = Ok r /\
    Permutation (inliers r ++ outliers r) ["a"; "b"; "c"]%string /\
    (NoDup ["a"; "b"; "c"]%string -> forall u, In u (inliers r) -> ~ In u (outliers r)) /\
    average r
    = reduce_axis0 np_mean
        (Array2 (shape1 (Array2 1 [[of_Z 1]; [of_Z 9]; [of_Z 2]]))
           (select (rows (Array2 1 [[of_Z 1]; [of_Z 9]; [of_Z 2]]))
              (positive [1%Z; (-1)%Z; 1%Z]))).
Proof.
  apply (@report_partitions_uids ["a"; "b"; "c"]%string
           (Array2 1 [[of_Z 1]; [of_Z 9]; [of_Z 2]]) [1%Z; (-1)%Z; 1%Z]).
  - reflexivity.
  - reflexivity.
  - repeat constructor; discriminate.
Defined.

End Partition.

(** ** Averaging a scan group: [average_scangroup] *)

Module Average.

Import Np NpFacts Analysis.

Lemma getitem_missing (df : DataFrame) (key : string) :
  ~ In key (df_columns df) -> getitem df key = Raise KeyError.
Proof.
  induction df as [|[k v] df IH]; intros Hk; [reflexivity|].
  cbn [getitem]. destruct (String.eqb k key) eqn:E.
  - apply String.eqb_eq in E. subst. exfalso. apply Hk. now left.
  - apply IH. intros H. apply Hk. now right.
Qed.

(** The alignment inside [average_scangroup] is not given [energy_key]: a
    group whose master scan has no column named ["energy"] raises
    [KeyError], whatever name the caller passes for the coordinate. *)
Theorem average_aligns_on_default_name
  (df0 : DataFrame) (rest : list DataFrame) (columns : list string) (energy_key : string) :
  ~ In "energy"%string (df_columns df0) ->
  average_scangroup (df0 :: rest) columns energy_key = Raise KeyError.
Proof.
  intros Hk. unfold average_scangroup, standardize_energy_grid.
  now rewrite (getitem_missing df0 _ Hk).
Qed.

Lemma average_aligns_on_default_name_witness :
  getitem [("e"%string, map of_Z [1; 2]%Z); ("mut"%string, map of_Z [5; 6]%Z)] "e"
  = Ok (map of_Z [1; 2]%Z)
  /\ average_scangroup
       [[("e"%string, map of_Z [1; 2]%Z); ("mut"%string, map of_Z [5; 6]%Z)]]
       ["mut"%string] "e"
     = Raise KeyError.
Proof.
  split; [reflexivity|].
  apply (@average_aligns_on_default_name
           [("e"%string, map of_Z [1; 2]%Z); ("mut"%string, map of_Z [5; 6]%Z)]
           [] ["mut"%string] "e"%string).
  cbn. intuition discriminate.
Defined.

End Average.


(** ** The checks on the detector currents: [check_saturation],
    [check_amplitude], [check_scan] *)

Module Currents.

Import Np NpFacts Analysis Interp Grid.

Lemma foldM_ext (A S : Type) (f g : A -> S -> result S) (l : list A) (s : S) :
  (forall a s', f a s' = g a s') -> foldM f l s = foldM g l s.
Proof.
  intros H. revert s. induction l as [|a l IH]; intros s; [reflexivity|].
  cbn [foldM]. rewrite H. destruct (g a s); cbn [bind]; auto.
Qed.

Lemma dict_getitem_set (V : Type) (d : dict V) (k k' : string) (v : V) :
  dict_getitem (dict_set d k v) k'
  = if String.eqb k k' then Ok v else dict_getitem d k'.
Proof.
  induction d as [|[k0 v0] d IH]; cbn [dict_set dict_getitem].
  - destruct (String.eqb k k'); reflexivity.
  - destruct (String.eqb k0 k) eqn:E; cbn [dict_getitem].
    + apply String.eqb_eq in E. subst. destruct (String.eqb k k'); reflexivity.
    + destruct (String.eqb k0 k') eqn:E'; [|exact IH].
      apply String.eqb_eq in E'. subst. now rewrite String.eqb_sym, E.
Qed.

Lemma getitem_dict (df : DataFrame) (key : string) : getitem df key = dict_getitem df key.
Proof. induction df as [|[k v] df IH]; [reflexivity|]. cbn. now rewrite IH. Qed.

Lemma getitem_set (df : DataFrame) (k k' : string) (v : array) :
  getitem (dict_set df k v) k' = if String.eqb k k' then Ok v else getitem df k'.
Proof. rewrite !getitem_dict. apply dict_getitem_set. Qed.

(** *** Loops that mark every key of a list *)

Section Marks.

Variable df : DataFrame.
Variable mark : array -> bool.

(** The loop of [check_saturation] and of [check_amplitude]. *)
Definition marks (keys : list string) (acc : dict bool) : result (dict bool) :=
  foldM (fun k d => v <- getitem df k ;; Ok (dict_set d k (mark v))) keys acc.

Lemma marks_spec (keys : list string) (acc d : dict bool) :
  marks keys acc = Ok d ->
  forall k,
    (In k keys -> exists v, getitem df k = Ok v /\ dict_getitem d k = Ok (mark v))
    /\ (~ In k keys -> dict_getitem d k = dict_getitem acc k).
Proof.
  revert acc. induction keys as [|k0 keys IH]; intros acc H k.
  - apply Decide.Ok_inj in H. subst. split; [intros [] | reflexivity].
  - unfold marks in H. cbn [foldM] in H.
    destruct (getitem df k0) as [v0|e] eqn:E0; [|discriminate].
    cbn [bind] in H. destruct (IH _ H k) as [Hin Hout].
    destruct (in_dec string_dec k keys) as [Hk | Hk].
    + split; [intros _; now apply Hin | intros Hn; exfalso; apply Hn; now right].
    + split.
      * intros [-> | Hk']; [|contradiction]. exists v0. split; [assumption|].
        rewrite (Hout Hk), dict_getitem_set. now rewrite String.eqb_refl.
      * intros Hn. rewrite (Hout Hk), dict_getitem_set.
        destruct (String.eqb k0 k) eqn:E; [|reflexivity].
        apply String.eqb_eq in E. exfalso. apply Hn. now left.
Qed.

Lemma marks_returns (keys : list string) (acc : dict bool) :
  Forall (fun k => exists v, getitem df k = Ok v) keys ->
  exists d, marks keys acc = Ok d.
Proof.
  intros H. revert acc. induction H as [|k keys (v & Hv) _ IH]; intros acc.
  - now exists acc.
  - unfold marks. cbn [foldM]. rewrite Hv. cbn [bind]. apply IH.
Qed.

Lemma marks_columns (keys : list string) (acc d : dict bool) :
  marks keys acc = Ok d -> Forall (fun k => exists v, getitem df k = Ok v) keys.
Proof.
  revert acc. induction keys as [|k keys IH]; intros acc H; [constructor|].
  unfold marks in H. cbn [foldM] in H.
  destruct (getitem df k) as [v|e] eqn:E; [|discriminate].
  constructor; [now exists v | exact (IH _ H)].
Qed.

End Marks.

Definition saturated (threshold : Qc) (v : array) : bool :=
  existsb (fun x => fgtb (fabs x) (Fin threshold)) v.

Definition low (threshold : Qc) (v : array) : bool :=
  forallb (fun x => fltb (fabs x) (Fin threshold)) v.

Lemma check_saturation_marks (df : DataFrame) (keys : list string) (threshold : Qc) :
  check_saturation df keys threshold
  = marks df (fun v => negb (saturated threshold v)) keys [].
Proof.
  unfold check_saturation, marks. apply foldM_ext. intros k d.
  destruct (getitem df k); [|reflexivity]. cbn [bind]. unfold saturated.
  now destruct (existsb _ _).
Qed.

Lemma check_amplitude_marks (df : DataFrame) (keys : list string) (threshold : Qc) :
  check_amplitude df keys threshold
  = marks df (fun v => negb (low threshold v)) keys [].
Proof.
  unfold check_amplitude, marks. apply foldM_ext. intros k d.
  destruct (getitem df k); [|reflexivity]. cbn [bind]. unfold low.
  now destruct (forallb _ _).
Qed.

(** A saturated current is not a low one, when the saturation threshold is
    not below the amplitude threshold. *)
Lemma saturated_not_low (ts ta : Qc) (v : array) :
  (ta <= ts)%Qc -> saturated ts v = true -> low ta v = false.
Proof.
  intros Hle Hs. unfold saturated in Hs. apply existsb_exists in Hs as (x & Hx & Hgt).
  unfold low. apply not_true_is_false. intros Hall.
  rewrite forallb_forall in Hall. specialize (Hall x Hx).
  unfold fgtb in Hgt. pose proof (fltb_trans _ _ _ Hgt Hall) as H.
  apply fltb_Fin in H. now apply Qclt_not_le in H.
Qed.

(** The two checks agree.  Whenever [check_saturation] returns, so does
    [check_amplitude] on the same frame and keys, and, with thresholds in
    the order of the defaults (20 <= 3200), every current that
    [check_saturation] marks as saturated ([False]) is marked by
    [check_amplitude] as of good amplitude ([True]). *)
Theorem saturated_current_has_amplitude
  (df : DataFrame) (keys : list string) (ts ta : Qc) (sat : dict bool) :
  (ta <= ts)%Qc ->
  check_saturation df keys ts = Ok sat ->
  exists amp,
    check_amplitude df keys ta = Ok amp
    /\ forall k, dict_getitem sat k = Ok false -> dict_getitem amp k = Ok true.
Proof.
  intros Hle Hsat. rewrite check_saturation_marks in Hsat.
  destruct (@marks_returns df (fun v => negb (low ta v)) keys []
              (@marks_columns df _ keys [] sat Hsat)) as (amp & Hamp).
  exists amp. split; [now rewrite check_amplitude_marks|].
  intros k Hk.
  destruct (@marks_spec df _ keys [] sat Hsat k) as [Hin Hout].
  destruct (in_dec string_dec k keys) as [Hkeys | Hkeys].
  - destruct (Hin Hkeys) as (v & Hv & Hs). rewrite Hs in Hk.
    apply Decide.Ok_inj in Hk. apply negb_false_iff in Hk.
    destruct (proj1 (@marks_spec df _ keys [] amp Hamp k) Hkeys) as (v' & Hv' & Ha).
    rewrite Hv in Hv'. apply Decide.Ok_inj in Hv'. subst v'.
    rewrite Ha. f_equal. apply negb_true_iff. eapply saturated_not_low; eassumption.
  - rewrite (Hout Hkeys) in Hk. discriminate.
Qed.

Lemma saturated_current_has_amplitude_witness :
  exists amp,
    check_amplitude
      [("i0"%string, map of_Z [10; 4000]%Z); ("it"%string, map of_Z [5; 7]%Z)]
      ["i0"; "it"]%string default_amplitude_threshold = Ok amp
    /\ forall k,
         dict_getitem [("i0"%string, false); ("it"%string, true)] k = Ok false ->
         dict_getitem amp k = Ok true.
Proof.
  apply (@saturated_current_has_amplitude
           [("i0"%string, map of_Z [10; 4000]%Z); ("it"%string, map of_Z [5; 7]%Z)]
           ["i0"; "it"]%string default_saturation_threshold default_amplitude_threshold
           [("i0"%string, false); ("it"%string, true)]).
  - unfold Qcle. vm_compute. discriminate.
  - vm_compute. reflexivity.
Defined.

(** *** [check_scan] *)

(** A current in mV, as [degain] computes it for the gain [10 ** g]. *)
Definition in_mV (g : Z) (v : array) : array :=
  map (fun x => fmul (fmul x (Fin (pow10 g))) (of_Z 1000)) v.

Lemma in_mV_length (g : Z) (v : array) : List.length (in_mV g v) = List.length v.
Proof. apply length_map. Qed.

Lemma in_mV_zero (g : Z) (v : array) : In (Fin 0) v -> In (Fin 0) (in_mV g v).
Proof.
  intros H. unfold in_mV. apply in_map_iff. exists (Fin 0). split; [|assumption].
  cbn [fmul of_Z]. f_equal. all: ring.
Qed.

Lemma over_zero_not_finite (x : npfloat) : isfinite (fdiv x (Fin 0)) = false.
Proof. destruct x as [a| | |]; cbn; try reflexivity. now destruct (sgn a). Qed.

Lemma over_zero_no_log (x : npfloat) : isfinite_neg_log (fdiv x (Fin 0)) = false.
Proof. destruct x as [a| | |]; cbn; try reflexivity. now destruct (sgn a). Qed.

(** A quotient by a column with a zero fails every test that no quotient
    by zero passes. *)
Lemma ratio_fails (P : npfloat -> bool) (num den : array) :
  (forall x, P (fdiv x (Fin 0)) = false) ->
  List.length num = List.length den -> In (Fin 0) den ->
  forallb P (zip_with fdiv num den) = false.
Proof.
  intros HP. revert den. induction num as [|x num IH]; intros [|z den] Hlen Hin;
    try discriminate; try contradiction.
  cbn [zip_with forallb]. destruct Hin as [-> | Hin].
  - now rewrite HP.
  - rewrite (IH den) by (cbn in Hlen; auto with arith). apply andb_false_r.
Qed.

Section Scan.

Variable df : DataFrame.
Variable md : Metadata.
Variables i0 it ir iff : array.
Variables g1 g2 g3 g4 : Z.

Hypothesis df_i0 : getitem df "i0" = Ok i0.
Hypothesis df_it : getitem df "it" = Ok it.
Hypothesis df_ir : getitem df "ir" = Ok ir.
Hypothesis df_iff : getitem df "iff" = Ok iff.
Hypothesis md_1 : dict_getitem md "ch1_amp_gain" = Ok g1.
Hypothesis md_2 : dict_getitem md "ch2_amp_gain" = Ok g2.
Hypothesis md_3 : dict_getitem md "ch3_amp_gain" = Ok g3.
Hypothesis md_4 : dict_getitem md "ch4_amp_gain" = Ok g4.

(** The frame [degain] returns. *)
Definition df_mV : DataFrame :=
  dict_set (dict_set (dict_set (dict_set df "i0" (in_mV g1 i0)) "it" (in_mV g2 it))
              "ir" (in_mV g3 ir)) "iff" (in_mV g4 iff).

Lemma degain_default : degain df md default_df_keys default_md_keys = Ok df_mV.
Proof.
  unfold degain, default_df_keys, default_md_keys. cbn [combine foldM fst snd].
  rewrite df_i0, md_1. cbn [bind]. rewrite df_it, md_2. cbn [bind].
  rewrite df_ir, md_3. cbn [bind]. rewrite df_iff, md_4. reflexivity.
Qed.

Lemma df_mV_i0 : getitem df_mV "i0" = Ok (in_mV g1 i0).
Proof. unfold df_mV. rewrite !getitem_set. reflexivity. Qed.

Lemma df_mV_it : getitem df_mV "it" = Ok (in_mV g2 it).
Proof. unfold df_mV. rewrite !getitem_set. reflexivity. Qed.

Lemma df_mV_ir : getitem df_mV "ir" = Ok (in_mV g3 ir).
Proof. unfold df_mV. rewrite !getitem_set. reflexivity. Qed.

Lemma df_mV_iff : getitem df_mV "iff" = Ok (in_mV g4 iff).
Proof. unfold df_mV. rewrite !getitem_set. reflexivity. Qed.

Lemma df_mV_currents :
  Forall (fun k => exists v, getitem df_mV k = Ok v) default_df_keys.
Proof.
  repeat constructor; eexists;
    [apply df_mV_i0 | apply df_mV_it | apply df_mV_ir | apply df_mV_iff].
Qed.

Lemma marks_lookup (mark : array -> bool) (d : dict bool) (k : string) :
  marks df_mV mark default_df_keys [] = Ok d -> In k default_df_keys ->
  exists b, dict_getitem d k = Ok b.
Proof.
  intros Hd Hk. destruct (proj1 (@marks_spec df_mV mark _ _ _ Hd k) Hk) as (v & _ & Hv).
  eauto.
Qed.

(** [check_scan] returns, and its flags are those of [check_mu_values] on
    the currents in mV, each behind its gate. *)
Lemma check_scan_returns :
  exists a b c,
    check_scan df md
    = Ok (MuFlags
            (a && forallb isfinite_neg_log (zip_with fdiv (in_mV g2 it) (in_mV g1 i0)))
            (b && forallb isfinite_neg_log (zip_with fdiv (in_mV g3 ir) (in_mV g1 i0)))
            (c && forallb isfinite (zip_with fdiv (in_mV g4 iff) (in_mV g1 i0)))).
Proof.
  unfold check_scan. rewrite degain_default. cbn [bind].
  rewrite check_saturation_marks, check_amplitude_marks.
  destruct (@marks_returns df_mV
              (fun v => negb (saturated default_saturation_threshold v))
              default_df_keys [] df_mV_currents) as (sat & Hsat).
  destruct (@marks_returns df_mV
              (fun v => negb (low default_amplitude_threshold v))
              default_df_keys [] df_mV_currents) as (amp & Hamp).
  rewrite Hsat. cbn [bind]. rewrite Hamp. cbn [bind].
  unfold check_mu_values. rewrite df_mV_it, df_mV_i0, df_mV_ir, df_mV_iff. cbn [bind].
  destruct (@marks_lookup _ amp "i0"%string Hamp) as (a0 & ->); [cbn; tauto|].
  destruct (@marks_lookup _ amp "it"%string Hamp) as (a1 & ->); [cbn; tauto|].
  destruct (@marks_lookup _ sat "i0"%string Hsat) as (s0 & Hs0); [cbn; tauto|].
  destruct (@marks_lookup _ sat "it"%string Hsat) as (s1 & Hs1); [cbn; tauto|].
  destruct (@marks_lookup _ sat "ir"%string Hsat) as (s2 & Hs2); [cbn; tauto|].
  destruct (@marks_lookup _ sat "iff"%string Hsat) as (s3 & Hs3); [cbn; tauto|].
  cbn [bind]. rewrite Hs0. cbn [bind]. rewrite Hs1. cbn [bind].
  rewrite Hs2. cbn [bind]. rewrite Hs3. cbn [bind mut mur muf].
  now exists (a0 && s0 && s1), (a1 && s1 && s2), (a0 && s0 && s3).
Qed.

End Scan.



End Currents.


(** ** Borrowing a reference spectrum: [check_refs] *)

Module Refs.

Import Np NpFacts Analysis Outliers.

(** A good row of the table that is nearest in time to [t]. *)
Definition nearest_good (sg : list scan_row) (t : Qc) (g : scan_row) : Prop :=
  In g sg /\ row_mur_good g = true /\
  forall g', In g' sg -> row_mur_good g' = true ->
    (time_distance t (row_time g) <= time_distance t (row_time g'))%Qc.

(** What [check_refs] leaves behind for a row [r] with a bad reference: the
    uid of a nearest good row as its source, and that row's [mur] column,
    as it was before the call, assigned to the frame of [r]. *)
Definition borrowed (sg : list scan_row) (h : heap) (r : scan_row)
  (source : option string) (h' : heap) : Prop :=
  exists g v,
    nearest_good sg (row_time r) g
    /\ getitem (h (row_data g)) "mur" = Ok v
    /\ source = Some (row_uid g)
    /\ h' (row_data r) = setitem_series (h (row_data r)) "mur" v.

(** *** The nearest row *)

Definition dist (t : Qc) (c : nat * scan_row) : Qc := time_distance t (row_time (snd c)).

Definition closer (t : Qc) (best cand : nat * scan_row) : nat * scan_row :=
  match (dist t cand ?= dist t best)%Qc with
  | Lt => cand
  | _ => best
  end.

Lemma closer_le (t : Qc) (best cand : nat * scan_row) :
  (dist t (closer t best cand) <= dist t best)%Qc
  /\ (dist t (closer t best cand) <= dist t cand)%Qc
  /\ (closer t best cand = best \/ closer t best cand = cand).
Proof.
  unfold closer. destruct (dist t cand ?= dist t best)%Qc eqn:E.
  - apply Qceq_alt in E. rewrite E. repeat split; try apply Qcle_refl. now left.
  - apply Qclt_alt in E. repeat split; [now apply Qclt_le_weak | apply Qcle_refl | now right].
  - apply Qcgt_alt in E. repeat split; [apply Qcle_refl | now apply Qclt_le_weak | now left].
Qed.

Lemma fold_closer (t : Qc) (rest : list (nat * scan_row)) (best : nat * scan_row) :
  let r := fold_left (closer t) rest best in
  (r = best \/ In r rest)
  /\ (dist t r <= dist t best)%Qc
  /\ forall c, In c rest -> (dist t r <= dist t c)%Qc.
Proof.
  revert best. induction rest as [|cand rest IH]; intros best; cbn [fold_left].
  - repeat split; [now left | apply Qcle_refl | intros c []].
  - destruct (IH (closer t best cand)) as (Hin & Hbest & Hall).
    destruct (closer_le t best cand) as (H1 & H2 & H3).
    repeat split.
    + destruct Hin as [-> | Hin]; [|right; now right].
      destruct H3 as [-> | ->]; [now left | right; now left].
    + eapply Qcle_trans; eassumption.
    + intros c [<- | Hc]; [eapply Qcle_trans; eassumption | now apply Hall].
Qed.

Lemma idxmin_spec (t : Qc) (good : list (nat * scan_row)) :
  good <> [] ->
  exists c, idxmin t good = Ok c /\ In c good
            /\ forall c', In c' good -> (dist t c <= dist t c')%Qc.
Proof.
  destruct good as [|g rest]; [congruence|]. intros _.
  destruct (fold_closer t rest g) as (Hin & Hbest & Hall).
  exists (fold_left (closer t) rest g). split; [reflexivity|]. split.
  - destruct Hin as [-> | Hin]; [now left | now right].
  - intros c' [<- | Hc]; [exact Hbest | now apply Hall].
Qed.

(** *** Rows and their labels *)

Lemma labelled_In (A : Type) (l : list A) (s i : nat) (a : A) :
  In (i, a) (combine (seq s (List.length l)) l) ->
  s <= i /\ nth_error l (i - s) = Some a.
Proof.
  revert s. induction l as [|x l IH]; intros s; cbn [List.length seq combine]; [intros []|].
  intros [H | H].
  - inversion H; subst. rewrite Nat.sub_diag. split; [lia | reflexivity].
  - destruct (IH _ H) as (Hs & Hn). split; [lia|].
    replace (i - s) with (S (i - S s)) by lia. exact Hn.
Qed.

Lemma labelled_nth (A : Type) (l : list A) (s k : nat) (a : A) :
  nth_error l k = Some a -> In (s + k, a) (combine (seq s (List.length l)) l).
Proof.
  revert s k. induction l as [|x l IH]; intros s [|k] H; try discriminate.
  - cbn in H. inversion H; subst. rewrite Nat.add_0_r. now left.
  - cbn [List.length seq combine]. right.
    replace (s + S k) with (S s + k) by lia. now apply IH.
Qed.

Lemma labelled_labels (A : Type) (l : list A) (s : nat) :
  map fst (combine (seq s (List.length l)) l) = seq s (List.length l).
Proof.
  revert s. induction l as [|x l IH]; intros s; [reflexivity|].
  cbn [List.length seq combine map fst]. now rewrite IH.
Qed.

Lemma NoDup_map_filter (A B : Type) (f : A -> B) (P : A -> bool) (l : list A) :
  NoDup (map f l) -> NoDup (map f (filter P l)).
Proof.
  induction l as [|a l IH]; intros H; [constructor|].
  cbn [map] in H. inversion H as [|? ? Ha Hl]; subst. cbn [filter].
  destruct (P a); [|now apply IH].
  cbn [map]. constructor; [|now apply IH].
  intros Hin. apply Ha. apply in_map_iff in Hin as (x & Hx & Hf).
  apply filter_In in Hf as [Hf _]. apply in_map_iff. now exists x.
Qed.

Lemma distinct_frames (sg : list scan_row) (i k : nat) (r r' : scan_row) :
  NoDup (map row_data sg) ->
  nth_error sg i = Some r -> nth_error sg k = Some r' -> i <> k ->
  row_data r <> row_data r'.
Proof.
  intros Hnd Hi Hk Hik Heq. apply Hik.
  apply (proj1 (NoDup_nth_error (map row_data sg)) Hnd).
  - rewrite length_map. apply nth_error_Some. congruence.
  - rewrite !nth_error_map, Hi, Hk. cbn. now rewrite Heq.
Qed.

Lemma loc_set_source_same (table : list (scan_row * option string)) (i : nat)
  (r : scan_row) (old new : option string) :
  nth_error table i = Some (r, old) ->
  nth_error (loc_set_source table i new) i = Some (r, new).
Proof.
  revert i. induction table as [|[r0 s0] table IH]; intros [|i] H; try discriminate.
  - cbn in H. inversion H; subst. reflexivity.
  - cbn [loc_set_source nth_error]. now apply IH.
Qed.

Lemma loc_set_source_other (table : list (scan_row * option string)) (i k : nat)
  (new : option string) :
  i <> k -> nth_error (loc_set_source table i new) k = nth_error table k.
Proof.
  revert i k. induction table as [|[r0 s0] table IH]; intros [|i] [|k] H;
    try reflexivity; try congruence.
  cbn [loc_set_source nth_error]. apply IH. congruence.
Qed.

Lemma loc_set_source_length (table : list (scan_row * option string)) (i : nat)
  (new : option string) :
  List.length (loc_set_source table i new) = List.length table.
Proof.
  revert i. induction table as [|[r0 s0] table IH]; intros [|i]; try reflexivity.
  cbn [loc_set_source List.length]. now rewrite IH.
Qed.

Lemma Forall2_nth_error (A B : Type) (R : A -> B -> Prop) (l : list A) (l' : list B) :
  List.length l' = List.length l ->
  (forall i a, nth_error l i = Some a -> exists b, nth_error l' i = Some b /\ R a b) ->
  Forall2 R l l'.
Proof.
  revert l'. induction l as [|a l IH]; intros [|b l'] Hlen H; try discriminate.
  - constructor.
  - destruct (H 0%nat a eq_refl) as (b' & Hb & HR). cbn in Hb. inversion Hb; subst.
    constructor; [exact HR|]. apply IH; [cbn in Hlen; lia|].
    intros i a' Ha. exact (H (S i) a' Ha).
Qed.

(** *** The loop *)

Section Loop.

Variable sg : list scan_row.
Variable h : heap.

Hypothesis own_frames : NoDup (map row_data sg).
Hypothesis good_have_mur :
  forall g, In g sg -> row_mur_good g = true ->
            exists v, getitem (h (row_data g)) "mur" = Ok v.

Let labelled := combine (seq 0 (List.length sg)) sg.
Let good_ref_df := filter (fun ir : nat * scan_row => row_mur_good (snd ir)) labelled.

(** The state of the table and of the frames while the rows in [todo] are
    still to be visited. *)
Definition visited (todo : list (nat * scan_row))
  (table : list (scan_row * option string)) (hp : heap) : Prop :=
  (forall i r, nth_error sg i = Some r ->
     exists source,
       nth_error table i = Some (r, source)
       /\ (row_mur_good r = true \/ In i (map fst todo) ->
           source = None /\ hp (row_data r) = h (row_data r))
       /\ (row_mur_good r = false -> ~ In i (map fst todo) ->
           borrowed sg h r source hp))
  /\ List.length table = List.length sg
  /\ (forall a, ~ In a (map row_data sg) -> hp a = h a).

Lemma good_rows (c : nat * scan_row) :
  In c good_ref_df -> nth_error sg (fst c) = Some (snd c) /\ row_mur_good (snd c) = true.
Proof.
  intros H. apply filter_In in H as [H Hg]. destruct c as [i r].
  apply labelled_In in H as [_ H]. rewrite Nat.sub_0_r in H. now split.
Qed.

Lemma good_listed (g : scan_row) :
  In g sg -> row_mur_good g = true -> exists i, In (i, g) good_ref_df.
Proof.
  intros Hin Hg. apply In_nth_error in Hin as (i & Hi). exists i.
  apply filter_In. split; [|exact Hg].
  apply (labelled_nth sg 0 i Hi).
Qed.

Lemma borrow_step (i : nat) (r : scan_row) (todo : list (nat * scan_row))
  (table : list (scan_row * option string)) (hp : heap) :
  good_ref_df <> [] ->
  nth_error sg i = Some r -> row_mur_good r = false ->
  ~ In i (map fst todo) ->
  visited ((i, r) :: todo) table hp ->
  exists table' hp',
    borrow_ref good_ref_df (i, r) (table, hp) = Ok (table', hp')
    /\ visited todo table' hp'.
Proof.
  intros Hgood Hi Hbad Hfresh (Hrows & Hlen & Hout).
  destruct (idxmin_spec (row_time r) Hgood) as (c & Hc & Hcin & Hmin).
  destruct (good_rows c Hcin) as (Hcn & Hcg).
  assert (Hcsg : In (snd c) sg) by (eapply nth_error_In; eassumption).
  destruct (good_have_mur _ Hcsg Hcg) as (v & Hv).
  destruct (Hrows _ _ Hcn) as (sc & _ & Hc_untouched & _).
  destruct (Hc_untouched (or_introl Hcg)) as (_ & Hc_frame).
  destruct (Hrows _ _ Hi) as (si & Hi_row & Hi_untouched & _).
  destruct (Hi_untouched (or_intror (or_introl eq_refl))) as (_ & Hi_frame).
  unfold borrow_ref. cbn [fst snd]. rewrite Hc. cbn [bind].
  rewrite Hc_frame, Hv. cbn [bind]. rewrite Hi_frame.
  eexists. eexists. split; [reflexivity|].
  split; [|split].
  - intros k rk Hk. destruct (Nat.eq_dec k i) as [-> | Hki].
    + assert (rk = r) by congruence. subst rk.
      exists (Some (row_uid (snd c))). split; [|split].
      * eapply loc_set_source_same; eassumption.
      * intros [Hg | Hin]; [congruence | contradiction].
      * intros _ _. exists (snd c), v. split; [|split; [|split]].
        -- split; [exact Hcsg|]. split; [exact Hcg|].
           intros g' Hg' Hgood'. destruct (good_listed g' Hg' Hgood') as (j & Hj).
           apply (Hmin _ Hj).
        -- exact Hv.
        -- reflexivity.
        -- unfold heap_set. now rewrite Nat.eqb_refl.
    + destruct (Hrows _ _ Hk) as (sk & Hk_row & Hk_untouched & Hk_borrowed).
      assert (Hframe : heap_set hp (row_data r)
                         (setitem_series (h (row_data r)) "mur" v) (row_data rk)
                       = hp (row_data rk)).
      { unfold heap_set.
        destruct (Nat.eqb_spec (row_data rk) (row_data r)) as [E | E]; [|reflexivity].
        exfalso. exact (@distinct_frames sg k i rk r own_frames Hk Hi Hki E). }
      exists sk. split; [|split].
      * rewrite loc_set_source_other by congruence. exact Hk_row.
      * intros H. rewrite Hframe. apply Hk_untouched.
        destruct H as [H | H]; [now left | right; now right].
      * intros Hb Hn. destruct (Hk_borrowed Hb) as (g & w & Hg & Hw & Hs & Hf).
        { intros [E | Hin]; [cbn in E; congruence | contradiction]. }
        exists g, w. repeat split; try assumption; try apply Hg.
        now rewrite Hframe.
  - now rewrite loc_set_source_length.
  - intros a Ha. unfold heap_set.
    destruct (Nat.eqb_spec a (row_data r)) as [-> | E]; [|now apply Hout].
    exfalso. apply Ha. apply in_map. eapply nth_error_In; eassumption.
Qed.

Lemma borrow_loop (todo : list (nat * scan_row))
  (table : list (scan_row * option string)) (hp : heap) :
  good_ref_df <> [] ->
  NoDup (map fst todo) ->
  (forall i r, In (i, r) todo -> nth_error sg i = Some r /\ row_mur_good r = false) ->
  visited todo table hp ->
  exists table' hp',
    foldM (borrow_ref good_ref_df) todo (table, hp) = Ok (table', hp')
    /\ visited [] table' hp'.
Proof.
  intros Hgood. revert table hp.
  induction todo as [|[i r] todo IH]; intros table hp Hnd Hbad Hv.
  - exists table, hp. now split.
  - cbn [map fst] in Hnd. inversion Hnd as [|? ? Hfresh Hnd']; subst.
    destruct (Hbad i r (or_introl eq_refl)) as (Hi & Hr).
    destruct (borrow_step Hgood Hi Hr Hfresh Hv) as (table1 & hp1 & Hstep & Hv1).
    destruct (IH table1 hp1 Hnd') as (table' & hp' & Hloop & Hv').
    + intros k rk Hk. apply Hbad. now right.
    + exact Hv1.
    + exists table', hp'. split; [|exact Hv'].
      cbn [foldM]. rewrite Hstep. exact Hloop.
Qed.

End Loop.

(** [check_refs] borrows the reference of the nearest good scan.  In a
    table in which every row refers to a frame of its own, some row has a
    good reference, and the frames of the good rows have a column [mur]:
    [check_refs] raises nothing; it keeps the rows and their order; a good
    row gets no source and keeps its frame; a bad row gets as source the
    uid of a good row at the least time distance, and the [mur] column of
    that row is assigned to its frame; no other frame changes. *)
Theorem check_refs_borrows_nearest (sg : list scan_row) (h : heap) :
  NoDup (map row_data sg) ->
  existsb row_mur_good sg = true ->
  (forall g, In g sg -> row_mur_good g = true ->
             exists v, getitem (h (row_data g)) "mur" = Ok v) ->
  exists table h',
    check_refs sg h = Ok (table, h')
    /\ Forall2 (fun r row =>
                  fst row = r
                  /\ if row_mur_good r
                     then snd row = None /\ h' (row_data r) = h (row_data r)
                     else borrowed sg h r (snd row) h')
               sg table
    /\ (forall a, ~ In a (map row_data sg) -> h' a = h a).
Proof.
  intros Hnd Hex Hmur. unfold check_refs. cbv zeta.
  destruct (forallb row_mur_good sg) eqn:Hall.
  { exists (map (fun r => (r, @None string)) sg), h.
    split; [reflexivity|]. split; [|reflexivity].
    apply Forall2_nth_error; [apply length_map|].
    intros i r Hi. exists (r, None). split; [now rewrite nth_error_map, Hi|].
    split; [reflexivity|].
    rewrite forallb_forall in Hall. rewrite (Hall r (nth_error_In _ _ Hi)). now split. }
  destruct (forallb (fun r => negb (row_mur_good r)) sg) eqn:Hnone.
  { exfalso. apply existsb_exists in Hex as (g & Hg & Hgood).
    rewrite forallb_forall in Hnone. specialize (Hnone g Hg).
    rewrite Hgood in Hnone. discriminate. }
  set (labelled := combine (seq 0 (List.length sg)) sg).
  set (bad := filter (fun ir : nat * scan_row => negb (row_mur_good (snd ir))) labelled).
  destruct (@borrow_loop sg h Hnd Hmur bad (map (fun r => (r, @None string)) sg) h)
    as (table & h' & Hloop & (Hrows & Hlen & Hout)).
  - apply existsb_exists in Hex as (g & Hg & Hgood).
    destruct (good_listed sg g Hg Hgood) as (i & Hi). intros E. rewrite E in Hi. exact Hi.
  - apply NoDup_map_filter. unfold labelled. rewrite labelled_labels. apply seq_NoDup.
  - intros i r Hin. apply filter_In in Hin as [Hin Hb]. cbn [snd] in Hb.
    apply labelled_In in Hin as [_ Hin]. rewrite Nat.sub_0_r in Hin.
    split; [exact Hin | now apply negb_true_iff].
  - split; [|split].
    + intros i r Hi. exists None. split; [now rewrite nth_error_map, Hi|]. split.
      * intros _. now split.
      * intros Hb Hn. exfalso. apply Hn.
        apply in_map_iff. exists (i, r). split; [reflexivity|].
        apply filter_In. split; [apply (labelled_nth sg 0 i Hi)|].
        cbn [snd]. now rewrite Hb.
    + apply length_map.
    + reflexivity.
  - exists table, h'. split; [exact Hloop|]. split; [|exact Hout].
    apply Forall2_nth_error; [exact Hlen|].
    intros i r Hi. destruct (Hrows i r Hi) as (source & Hrow & Hgood & Hbad).
    exists (r, source). split; [exact Hrow|]. split; [reflexivity|]. cbn [snd].
    destruct (row_mur_good r) eqn:E.
    + apply Hgood. now left.
    + apply Hbad; [reflexivity | intros []].
Qed.

Definition frames (a : nat) : DataFrame :=
  match a with
  | 0 => [("energy", map of_Z [1; 2; 3]%Z); ("mur", map of_Z [10; 20; 30]%Z)]
  | 1 => [("energy", map of_Z [1; 2; 3]%Z); ("mur", map of_Z [0; 0; 0]%Z)]
  | 2 => [("energy", map of_Z [1; 2]%Z); ("mur", map of_Z [11; 21]%Z)]
  | _ => []
  end%string.

Definition group : list scan_row :=
  [ScanRow "a" (qc 0 1) true 0; ScanRow "b" (qc 5 1) false 1;
   ScanRow "c" (qc 7 1) true 2]%string.

Lemma check_refs_borrows_nearest_witness :
  exists table h',
    check_refs group frames = Ok (table, h')
    /\ Forall2 (fun r row =>
                  fst row = r
                  /\ if row_mur_good r
                     then snd row = None /\ h' (row_data r) = frames (row_data r)
                     else borrowed group frames r (snd row) h')
               group table
    /\ (forall a, ~ In a (map row_data group) -> h' a = frames a).
Proof.
  apply (@check_refs_borrows_nearest group frames).
  - repeat constructor; cbn; lia.
  - reflexivity.
  - intros g [<- | [<- | [<- | []]]] Hg; try discriminate; eexists; reflexivity.
Defined.

End Refs.

